(** * PIX payment-code service: EMV payload composition, CRC16, validation
      and the QR-code cache.

    Shallow embedding of [server/services/pix.ts]:
    [generatePixCode], [generatePixQRCode], [calculateCRC16] and
    [validatePixCode], together with the JavaScript primitives they use. *)

From Stdlib Require Import ZArith List Lia Bool String Ascii.
Import ListNotations.
Open Scope Z_scope.

(** ** JavaScript primitives *)

Module JS.

(** A JavaScript string is a sequence of UTF-16 code units; [charCodeAt]
    returns the unit at an index and [length] counts units. *)
Definition jsstring := list Z.

Definition code (a : ascii) : Z := Z.of_N (N_of_ascii a).

(** A string literal of the source. *)
Definition lit (s : string) : jsstring := map code (list_ascii_of_string s).

Definition length (s : jsstring) : Z := Z.of_nat (List.length s).

(** Completion of a call: a value is returned or an exception is thrown. *)
Inductive completion (A : Type) : Type :=
| Returned (a : A)
| Thrown (message : jsstring).
Arguments Returned {A} a.
Arguments Thrown {A} message.

(** [try { body } catch (error) { handler }] where the handler ignores the
    caught value. *)
Definition try_catch {A} (body : completion A) (handler : completion A)
  : completion A :=
  match body with
  | Returned a => Returned a
  | Thrown _ => handler
  end.

(** The bitwise operators work on 32-bit two's-complement integers. *)
Definition ToInt32 (x : Z) : Z := (x + 2 ^ 31) mod 2 ^ 32 - 2 ^ 31.

(** [a << b] *)
Definition shl (a b : Z) : Z :=
  ToInt32 (Z.shiftl (ToInt32 a) (Z.land b 31)).

(** [a ^ b] *)
Definition bxor (a b : Z) : Z := Z.lxor (ToInt32 a) (ToInt32 b).

(** [a & b] *)
Definition band (a b : Z) : Z := Z.land (ToInt32 a) (ToInt32 b).

(** A number used as a condition is true when it is not zero. *)
Definition truthy (x : Z) : bool := negb (x =? 0).

(** Digit of [toString(radix)]: [0-9] then lowercase [a-z]. *)
Definition digit (d : Z) : Z := if d <? 10 then 48 + d else 87 + d.

Fixpoint digits (fuel : nat) (radix n : Z) (acc : jsstring) : jsstring :=
  match fuel with
  | O => acc
  | S fuel' =>
      let acc' := digit (n mod radix) :: acc in
      if n / radix =? 0 then acc' else digits fuel' radix (n / radix) acc'
  end.

(** [n.toString(radix)] and [String(n)] for a non-negative integer [n]. *)
Definition toString (radix n : Z) : jsstring :=
  digits (S (Z.to_nat (Z.log2 n))) radix n [].

Definition String_ (n : Z) : jsstring := toString 10 n.

(** [toUpperCase], on the ASCII letters (every other unit this program
    passes to it is a decimal digit). *)
Definition upper (c : Z) : Z :=
  if (97 <=? c) && (c <=? 122) then c - 32 else c.

Definition toUpperCase (s : jsstring) : jsstring := map upper s.

(** [s.padStart(n, fill)] with a one-unit filler. *)
Definition padStart (n : Z) (fill : Z) (s : jsstring) : jsstring :=
  repeat fill (Z.to_nat (n - length s)) ++ s.

Definition clamp (len i : Z) : Z := Z.min (Z.max i 0) len.

(** [s.substring(start, end)]: both indices are clamped to [0, length]
    and swapped when start is the larger. *)
Definition substring (s : jsstring) (start end_ : Z) : jsstring :=
  let a := clamp (length s) start in
  let b := clamp (length s) end_ in
  let lo := Z.min a b in
  let hi := Z.max a b in
  firstn (Z.to_nat (hi - lo)) (skipn (Z.to_nat lo) s).

(** [s.substring(start)] *)
Definition substring_from (s : jsstring) (start : Z) : jsstring :=
  substring s start (length s).

(** [a === b] on strings. *)
Fixpoint eqb (a b : jsstring) : bool :=
  match a, b with
  | [], [] => true
  | x :: a', y :: b' => (x =? y) && eqb a' b'
  | _, _ => false
  end.

Fixpoint startsWith (s needle : jsstring) : bool :=
  match needle, s with
  | [], _ => true
  | n :: needle', c :: s' => (c =? n) && startsWith s' needle'
  | _ :: _, [] => false
  end.

(** [s.includes(needle)] *)
Fixpoint includes (s needle : jsstring) : bool :=
  startsWith s needle ||
  match s with
  | [] => false
  | _ :: s' => includes s' needle
  end.

(** [parts.join("")] *)
Definition join (parts : list jsstring) : jsstring := List.concat parts.

End JS.

Import JS.

(** ** The checksum *)

Definition polynomial : Z := 0x1021.

(** Body of the inner [for (j ...)] loop. *)
Definition crc_bit (crc : Z) : Z :=
  if truthy (band crc 0x8000)
  then bxor (shl crc 1) polynomial
  else shl crc 1.

(** Body of the outer [for (i ...)] loop, [c] being [data.charCodeAt(i)]. *)
Definition crc_char (crc c : Z) : Z :=
  Nat.iter 8 crc_bit (bxor crc (shl c 8)).

Definition calculateCRC16 (data : jsstring) : Z :=
  band (fold_left crc_char data 0xFFFF) 0xFFFF.

(** *** CRC-16/CCITT-FALSE as the specification words it

    Register [0xFFFF], polynomial [0x1021], the unit truncated to 8 bits and
    XORed into the high byte, eight most-significant-bit-first steps, the
    register masked to 16 bits after every step. *)

Definition mask16 (x : Z) : Z := Z.land x 0xFFFF.

Definition ref_bit (r : Z) : Z :=
  if Z.testbit r 15
  then mask16 (Z.lxor (Z.shiftl r 1) 0x1021)
  else mask16 (Z.shiftl r 1).

Definition ref_byte (r c : Z) : Z :=
  Nat.iter 8 ref_bit (Z.lxor r (Z.shiftl (Z.land c 0xFF) 8)).

Definition crc16_ccitt_false (data : jsstring) : Z :=
  fold_left ref_byte data 0xFFFF.

(** ** Composition of the payment code *)

(** The [amount] parameter has type [string | number]; a number is carried
    as the decimal text its [toString()] yields. *)
Inductive amount_arg : Type :=
| AmountString (s : jsstring)
| AmountNumber (rendering : jsstring).

Definition amount_toString (amount : amount_arg) : jsstring :=
  match amount with
  | AmountString s => s
  | AmountNumber rendering => rendering
  end.

(** [process.env.PIX_KEY || fallback]: an unset or empty variable is falsy. *)
Definition or_default (v : option jsstring) (fallback : jsstring) : jsstring :=
  match v with
  | Some (c :: s) => c :: s
  | Some [] | None => fallback
  end.

(** [buffer.toString('hex')]: two lowercase digits per byte. *)
Definition hex_of_byte (b : Byte.byte) : jsstring :=
  let n := Z.of_N (Byte.to_N b) in [digit (n / 16); digit (n mod 16)].

Definition hex_of_bytes (bs : list Byte.byte) : jsstring :=
  flat_map hex_of_byte bs.

(** [String(n).padStart(2, '0')] *)
Definition len2 (n : Z) : jsstring := padStart 2 48 (String_ n).

(** [crc.toString(16).toUpperCase().padStart(4, '0')] *)
Definition hex4 (crc : Z) : jsstring :=
  padStart 4 48 (toUpperCase (toString 16 crc)).

Section Compose.

(** [process.env.PIX_KEY] and the bytes drawn by [randomBytes(16)]. *)
Variable PIX_KEY : option jsstring.
Variable random : list Byte.byte.

Definition pixKey : jsstring :=
  or_default PIX_KEY (lit "contato@deltasilkprint.com.br").
Definition merchantName : jsstring := lit "DELTA SILK PRINT".
Definition merchantCity : jsstring := lit "SAO PAULO".
Definition txId : jsstring := substring (hex_of_bytes random) 0 25.

(** The array literal of the source, one element per entry. *)
Definition payload_parts (amountStr : jsstring) : list jsstring :=
  [ lit "00"; lit "02"; lit "01"; lit "12";
    lit "26"; len2 (length pixKey + 19);
    lit "0014"; lit "br.gov.bcb.pix";
    lit "01"; len2 (length pixKey); pixKey;
    lit "52"; lit "0000";
    lit "53"; lit "986";
    lit "54"; len2 (length amountStr); amountStr;
    lit "58"; lit "02"; lit "BR";
    lit "59"; len2 (length merchantName); merchantName;
    lit "60"; len2 (length merchantCity); merchantCity;
    lit "62"; len2 (length txId + 4); lit "05"; len2 (length txId); txId;
    lit "63"; lit "04" ].

Definition generatePixCode (amount : amount_arg) (description : jsstring)
  : jsstring :=
  let amountStr := amount_toString amount in
  let payload := join (payload_parts amountStr) in
  let crc := calculateCRC16 payload in
  let finalPayload := payload ++ hex4 crc in
  finalPayload.

(** The function has no [throw] and calls nothing that throws on
    arguments of these types: every call completes by returning. *)
Definition generatePixCode_call (amount : amount_arg) (description : jsstring)
  : completion jsstring :=
  Returned (generatePixCode amount description).

End Compose.

(** ** Validation *)

Definition validatePixCode (pixCode : jsstring) : completion bool :=
  try_catch
    (if length pixCode <? 10 then Returned false
     else
       let payload := substring pixCode 0 (length pixCode - 4) in
       let providedCrc := substring_from pixCode (length pixCode - 4) in
       let calculatedCrc := calculateCRC16 payload in
       let calculatedCrcHex := hex4 calculatedCrc in
       Returned (eqb providedCrc calculatedCrcHex))
    (Returned false).

(** ** The QR-code cache *)

(** [Map<string, string>]: entries in insertion order, one per key. *)
Definition Map := list (jsstring * jsstring).

Fixpoint Map_get (m : Map) (k : jsstring) : option jsstring :=
  match m with
  | [] => None
  | (k', v) :: m' => if eqb k' k then Some v else Map_get m' k
  end.

Definition Map_has (m : Map) (k : jsstring) : bool :=
  match Map_get m k with Some _ => true | None => false end.

(** [set] keeps the position of a key already present and appends a new
    one. *)
Fixpoint Map_set (m : Map) (k v : jsstring) : Map :=
  match m with
  | [] => [(k, v)]
  | (k', v') :: m' =>
      if eqb k' k then (k', v) :: m' else (k', v') :: Map_set m' k v
  end.

Fixpoint Map_delete (m : Map) (k : jsstring) : Map :=
  match m with
  | [] => []
  | (k', v') :: m' => if eqb k' k then m' else (k', v') :: Map_delete m' k
  end.

Definition Map_size (m : Map) : Z := Z.of_nat (List.length m).

Definition Map_keys (m : Map) : list jsstring := map fst m.

(** [m.keys().next().value] *)
Definition Map_first_key (m : Map) : option jsstring := hd_error (Map_keys m).

Section QRCode.

(** The rendering collaborator [QRCode.toDataURL(text, options)]: it
    resolves with a data URL or rejects, and may depend on and change a
    state of its own. *)
Variable World : Type.
Variable toDataURL : World -> jsstring -> completion jsstring * World.

(** The module state: the cache, the collaborator's state and, as an
    observation, the texts passed to [toDataURL] so far. *)
Record state : Type := mkState {
  qrCodeCache : Map;
  world : World;
  rendered : list jsstring
}.

(** One call run to completion (calls are taken one after the other). *)
Definition generatePixQRCode (st : state) (pixCode : jsstring)
  : completion jsstring * state :=
  if Map_has (qrCodeCache st) pixCode then
    (Returned (match Map_get (qrCodeCache st) pixCode with
               | Some v => v
               | None => []
               end), st)
  else
    let (r, w) := toDataURL (world st) pixCode in
    let log := rendered st ++ [pixCode] in
    match r with
    | Thrown _ =>
        (Thrown (lit "Failed to generate QR code"),
         mkState (qrCodeCache st) w log)
    | Returned qrCodeDataURL =>
        let cache :=
          if 100 <=? Map_size (qrCodeCache st) then
            match Map_first_key (qrCodeCache st) with
            | Some firstKey => Map_delete (qrCodeCache st) firstKey
            | None => qrCodeCache st
            end
          else qrCodeCache st in
        (Returned qrCodeDataURL,
         mkState (Map_set cache pixCode qrCodeDataURL) w log)
    end.

(** A sequence of calls, each started when the previous one is done. *)
Definition run (st : state) (pixCodes : list jsstring) : state :=
  fold_left (fun s k => snd (generatePixQRCode s k)) pixCodes st.

End QRCode.

Arguments mkState {World} qrCodeCache world rendered.
Arguments qrCodeCache {World} s.
Arguments world {World} s.
Arguments rendered {World} s.
Arguments generatePixQRCode {World} toDataURL st pixCode.
Arguments run {World} toDataURL st pixCodes.

(** ** Auxiliary definitions for the proofs *)

(** The 16-bit register values. *)
Fixpoint count_from (from : Z) (n : nat) : list Z :=
  match n with
  | O => []
  | S n' => from :: count_from (from + 1) n'
  end.

Definition registers : list Z := count_from 0 (Z.to_nat 65536).

Definition is_upper_hex (c : Z) : bool :=
  ((48 <=? c) && (c <=? 57)) || ((65 <=? c) && (c <=? 70)).

Definition hex_value (c : Z) : Z := if c <=? 57 then c - 48 else c - 55.

(** Reads back an uppercase hexadecimal numeral. *)
Definition parse_hex (s : jsstring) : Z :=
  fold_left (fun acc c => 16 * acc + hex_value c) s 0.

(** The register fits 16 bits. *)
Definition in16 (r : Z) : Prop := 0 <= r < 65536.

Definition digit_value (c : Z) : Z := if c <? 58 then c - 48 else c - 87.

(** The number a numeral of [toString(radix)] stands for. *)
Definition numeral_value (radix : Z) (s : jsstring) : Z :=
  fold_left (fun acc c => radix * acc + digit_value c) s 0.

(** Inverse of one shift/XOR step of the 16-bit register. *)
Definition unbit (t : Z) : Z :=
  if Z.odd t then Z.lxor t 0x1021 / 2 + 32768 else t / 2.

(** ** Statements examined below *)

(** Tamper detection for every replacement unit: the candidate is a prefix
    [pre ++ c :: suf] followed by its checksum, and [c] is replaced by any
    different unit [c']. *)
Definition detects_any_replacement (pre : jsstring) (c : Z) (suf : jsstring)
  (c' : Z) : Prop :=
  c' <> c ->
  validatePixCode
    (pre ++ c' :: suf ++ hex4 (calculateCRC16 (pre ++ c :: suf)))
  = Returned false.

(** The encoded sub-fields of the tag-26 template: entries 7 to 11 of the
    array literal (GUI field, then the tag-01 key field). *)
Definition merchant_account_fields (PIX_KEY : option jsstring) : jsstring :=
  join [ lit "0014"; lit "br.gov.bcb.pix";
         lit "01"; len2 (length (pixKey PIX_KEY)); pixKey PIX_KEY ].

(** Sixteen zero bytes, a possible draw of [randomBytes(16)]. *)
Definition zero_bytes : list Byte.byte := repeat Byte.x00 16.

Definition test_key : option jsstring := Some (lit "test@example.com").

(** The concrete vector with "5303986" and "5402" followed by "10.00". *)
Definition vector_with_5402 (random : list Byte.byte) (description : jsstring)
  : Prop :=
  let p := generatePixCode test_key random (AmountString (lit "10.00"))
             description in
  startsWith p (lit "000201") = true /\
  includes p (lit "5303986") = true /\
  includes p (lit "5402" ++ lit "10.00") = true /\
  forallb is_upper_hex (substring_from p (length p - 4)) = true /\
  validatePixCode p = Returned true.

(** The length guard: a call with an amount of 100 or more units throws. *)
Definition rejects_long_amount (PIX_KEY : option jsstring)
  (random : list Byte.byte) (amount : amount_arg) (description : jsstring)
  : Prop :=
  100 <= length (amount_toString amount) ->
  exists e, generatePixCode_call PIX_KEY random amount description = Thrown e.

(** An amount of one hundred "1". *)
Definition hundred_ones : jsstring := repeat 49 100.

(** Pairwise distinct keys, as a test. *)
Fixpoint distinct (ks : list jsstring) : bool :=
  match ks with
  | [] => true
  | k :: ks' => negb (existsb (eqb k) ks') && distinct ks'
  end.

(** A renderer that always resolves (with the text itself). *)
Definition echo_renderer (w : unit) (text : jsstring)
  : completion jsstring * unit :=
  (Returned text, w).

(** A renderer that rejects its first call and resolves afterwards; its
    state tells whether it has been called. *)
Definition flaky_renderer (called : bool) (text : jsstring)
  : completion jsstring * bool :=
  if called then (Returned text, true)
  else (Thrown (lit "render failed"), true).

(** 101 distinct one-unit payloads. *)
Definition sample_payloads : list jsstring :=
  map (fun n => [n]) (count_from 0 101).

(** ** Further auxiliary definitions *)

(** The low 8 bits of a unit. *)
Definition low_byte (c : Z) : Z := Z.land c 0xFF.

(** The byte values. *)
Definition byte_values : list Z := count_from 0 256.

(** The eight register steps taken for one unit. *)
Definition ref_bits8 (r : Z) : Z := Nat.iter 8 ref_bit r.

Definition is_lower_hex (c : Z) : bool :=
  ((48 <=? c) && (c <=? 57)) || ((97 <=? c) && (c <=? 102)).

(** Printable ASCII. *)
Definition printable (c : Z) : bool := (32 <=? c) && (c <=? 126).

(** ** The route [POST /api/pix/qrcode] *)

(** What the handler reads of a request: [req.isAuthenticated()] and the
    members [amount] and [description] of [req.body], each possibly absent.
    The amount is a string or a number, as the parameter of
    [generatePixCode] is typed. *)
Record pix_request : Type := mkRequest {
  isAuthenticated : bool;
  body_amount : option amount_arg;
  body_description : option jsstring
}.

(** Truthiness of a present amount: the empty string is falsy, and so are
    the numbers 0, -0 and NaN, which are the numbers whose [toString()] is
    "0" or "NaN". *)
Definition amount_truthy (amount : amount_arg) : bool :=
  match amount with
  | AmountString s => negb (eqb s [])
  | AmountNumber rendering =>
      negb (eqb rendering (lit "0") || eqb rendering (lit "NaN"))
  end.

Inductive response_body : Type :=
| Message (message : jsstring)
| QrCodeAndPixCode (qrCode pixCode : jsstring).

(** [res.sendStatus(n)], or [res.status(n).json(body)] ([res.json(body)]
    answers with status 200). *)
Inductive response : Type :=
| SendStatus (status : Z)
| StatusJson (status : Z) (body : response_body).

Section Route.

Variable World : Type.
Variable toDataURL : World -> jsstring -> completion jsstring * World.
Variable PIX_KEY : option jsstring.

(** One request handled to completion; [random] is what [randomBytes(16)]
    yields if the handler gets as far as [generatePixCode]. *)
Definition pix_qrcode_route (st : state World) (random : list Byte.byte)
  (req : pix_request) : response * state World :=
  if negb (isAuthenticated req) then (SendStatus 401, st)
  else
    match body_amount req with
    | None => (StatusJson 400 (Message (lit "Amount is required")), st)
    | Some amount =>
        if negb (amount_truthy amount) then
          (StatusJson 400 (Message (lit "Amount is required")), st)
        else
          let pixCode :=
            generatePixCode PIX_KEY random amount
              (or_default (body_description req) (lit "")) in
          let (r, st') := generatePixQRCode toDataURL st pixCode in
          match r with
          | Returned qrCode =>
              (StatusJson 200 (QrCodeAndPixCode qrCode pixCode), st')
          | Thrown _ =>
              (StatusJson 500
                 (Message (lit "Failed to generate PIX QR code")), st')
          end
    end.

End Route.

Arguments pix_qrcode_route {World} toDataURL PIX_KEY st random req.

(** Sixteen bytes 0xFF, another possible draw of [randomBytes(16)]. *)
Definition ff_bytes : list Byte.byte := repeat Byte.xff 16.

(** * Properties *)

(** ** String equality *)

Lemma eqb_eq (a b : jsstring) : eqb a b = true <-> a = b.
Proof.
  revert b; induction a as [|x a IH]; intros [|y b]; simpl;
    try (split; [discriminate | congruence]); try tauto.
  rewrite andb_true_iff, Z.eqb_eq, IH.
  split; [intros [-> ->]; reflexivity | intros [= -> ->]; auto].
Qed.

Lemma eqb_refl (a : jsstring) : eqb a a = true.
Proof. apply eqb_eq; reflexivity. Qed.

Lemma eqb_neq (a b : jsstring) : eqb a b = false <-> a <> b.
Proof.
  rewrite <- eqb_eq. destruct (eqb a b); split; congruence.
Qed.

(** ** The 32-bit loop against the 16-bit register *)

Lemma mask16_mod (x : Z) : mask16 x = x mod 65536.
Proof. unfold mask16. change 0xFFFF with (Z.ones 16). now rewrite Z.land_ones. Qed.

Lemma mask16_range (x : Z) : 0 <= mask16 x < 65536.
Proof. rewrite mask16_mod. apply Z.mod_pos_bound. lia. Qed.

Lemma mask16_small (x : Z) : 0 <= x < 65536 -> mask16 x = x.
Proof. intros H. rewrite mask16_mod. now apply Z.mod_small. Qed.

Lemma mask16_idem (x : Z) : mask16 (mask16 x) = mask16 x.
Proof. apply mask16_small, mask16_range. Qed.

Lemma mask16_ToInt32 (x : Z) : mask16 (ToInt32 x) = mask16 x.
Proof.
  rewrite !mask16_mod. unfold ToInt32.
  rewrite (Z.mod_eq (x + 2 ^ 31) (2 ^ 32)) by lia.
  replace (x + 2 ^ 31 - 2 ^ 32 * ((x + 2 ^ 31) / 2 ^ 32) - 2 ^ 31)
    with (x + (- 65536 * ((x + 2 ^ 31) / 2 ^ 32)) * 65536) by lia.
  apply Z_mod_plus_full.
Qed.

Lemma mask16_lxor (a b : Z) :
  mask16 (Z.lxor a b) = Z.lxor (mask16 a) (mask16 b).
Proof.
  unfold mask16. apply Z.bits_inj'. intros n _.
  rewrite Z.land_spec, !Z.lxor_spec, !Z.land_spec.
  destruct (Z.testbit a n), (Z.testbit b n), (Z.testbit 0xFFFF n); reflexivity.
Qed.

Lemma mask16_double (x : Z) :
  mask16 (Z.shiftl x 1) = mask16 (Z.shiftl (mask16 x) 1).
Proof.
  rewrite !Z.shiftl_mul_pow2, !mask16_mod by lia.
  change (2 ^ 1) with 2. now rewrite Z.mul_mod_idemp_l by lia.
Qed.

Lemma mask16_bxor (a b : Z) :
  mask16 (bxor a b) = Z.lxor (mask16 a) (mask16 b).
Proof. unfold bxor. now rewrite mask16_lxor, !mask16_ToInt32. Qed.

Lemma mask16_shl1 (x : Z) :
  mask16 (shl x 1) = mask16 (Z.shiftl (mask16 x) 1).
Proof.
  unfold shl. change (Z.land 1 31) with 1.
  now rewrite mask16_ToInt32, mask16_double, mask16_ToInt32, <- mask16_double.
Qed.

Lemma mask16_testbit15 (x : Z) : Z.testbit (mask16 x) 15 = Z.testbit x 15.
Proof.
  unfold mask16. rewrite Z.land_spec.
  change (Z.testbit 0xFFFF 15) with true. apply andb_true_r.
Qed.

Lemma truthy_bit15 (crc : Z) :
  truthy (band crc 0x8000) = Z.testbit (mask16 crc) 15.
Proof.
  unfold truthy, band. change (ToInt32 0x8000) with (2 ^ 15).
  rewrite <- (mask16_ToInt32 crc), mask16_testbit15.
  set (x := ToInt32 crc).
  destruct (Z.testbit x 15) eqn:Hb.
  - destruct (Z.eqb_spec (Z.land x (2 ^ 15)) 0) as [E|]; [|reflexivity].
    assert (Hc : Z.testbit (Z.land x (2 ^ 15)) 15 = true).
    { rewrite Z.land_spec, Hb. reflexivity. }
    rewrite E in Hc. discriminate.
  - assert (E : Z.land x (2 ^ 15) = 0).
    { apply Z.bits_inj'. intros n Hn.
      rewrite Z.land_spec, Z.bits_0.
      destruct (Z.eq_dec n 15) as [->|Hne]; [now rewrite Hb|].
      rewrite (Z.pow2_bits_false 15 n) by lia. apply andb_false_r. }
    rewrite E. reflexivity.
Qed.

Lemma crc_bit_ref (x : Z) : mask16 (crc_bit x) = ref_bit (mask16 x).
Proof.
  unfold crc_bit, ref_bit. rewrite truthy_bit15.
  destruct (Z.testbit (mask16 x) 15).
  - rewrite mask16_bxor, mask16_shl1, mask16_lxor.
    reflexivity.
  - apply mask16_shl1.
Qed.

Lemma crc_bits_ref (n : nat) (x : Z) :
  mask16 (Nat.iter n crc_bit x) = Nat.iter n ref_bit (mask16 x).
Proof.
  induction n as [|n IH]; simpl; [reflexivity|].
  now rewrite crc_bit_ref, IH.
Qed.

Lemma byte_in_high (c : Z) :
  mask16 (shl c 8) = Z.shiftl (Z.land c 0xFF) 8.
Proof.
  unfold shl. change (Z.land 8 31) with 8.
  rewrite mask16_ToInt32. change 0xFF with (Z.ones 8).
  rewrite Z.land_ones, !Z.shiftl_mul_pow2, mask16_mod by lia.
  change (2 ^ 8) with 256. change 65536 with (256 * 256).
  rewrite Z.mul_mod_distr_r by lia. f_equal.
  unfold ToInt32.
  rewrite (Z.mod_eq (c + 2 ^ 31) (2 ^ 32)) by lia.
  replace (c + 2 ^ 31 - 2 ^ 32 * ((c + 2 ^ 31) / 2 ^ 32) - 2 ^ 31)
    with (c + (- 16777216 * ((c + 2 ^ 31) / 2 ^ 32)) * 256) by lia.
  apply Z_mod_plus_full.
Qed.

Lemma crc_char_ref (x c : Z) :
  mask16 (crc_char x c) = ref_byte (mask16 x) c.
Proof.
  unfold crc_char, ref_byte.
  now rewrite crc_bits_ref, mask16_bxor, byte_in_high.
Qed.

Lemma fold_left_cons {A B} (f : A -> B -> A) (b : B) (l : list B) (a : A) :
  fold_left f (b :: l) a = fold_left f l (f a b).
Proof. reflexivity. Qed.

Lemma crc_fold_ref (data : jsstring) (x : Z) :
  mask16 (fold_left crc_char data x) = fold_left ref_byte data (mask16 x).
Proof.
  revert x; induction data as [|c data IH]; intros x; [reflexivity|].
  rewrite !fold_left_cons, IH, crc_char_ref. reflexivity.
Qed.

Lemma calculateCRC16_ref (data : jsstring) :
  calculateCRC16 data = crc16_ccitt_false data.
Proof.
  unfold calculateCRC16, crc16_ccitt_false, band.
  change (ToInt32 0xFFFF) with 0xFFFF.
  fold (mask16 (ToInt32 (fold_left crc_char data 0xFFFF))).
  rewrite mask16_ToInt32, crc_fold_ref.
  rewrite (mask16_small 0xFFFF) by lia. reflexivity.
Qed.

Lemma calculateCRC16_range (data : jsstring) :
  0 <= calculateCRC16 data < 65536.
Proof.
  unfold calculateCRC16, band. change (ToInt32 0xFFFF) with 0xFFFF.
  apply mask16_range.
Qed.

(** ** Numerals *)

Lemma digit_value_digit (d : Z) : 0 <= d < 36 -> digit_value (digit d) = d.
Proof.
  intros H. unfold digit_value, digit.
  destruct (Z.ltb_spec d 10).
  - destruct (Z.ltb_spec (48 + d) 58); lia.
  - destruct (Z.ltb_spec (87 + d) 58); lia.
Qed.

Lemma digits_acc (fuel : nat) (radix n : Z) (acc : jsstring) :
  digits fuel radix n acc = digits fuel radix n [] ++ acc.
Proof.
  revert n acc; induction fuel as [|fuel IH]; intros n acc; [reflexivity|].
  cbn [digits]. destruct (n / radix =? 0); [reflexivity|].
  rewrite (IH _ (_ :: acc)), (IH _ [_]), <- app_assoc. reflexivity.
Qed.

Lemma numeral_value_snoc (radix c : Z) (s : jsstring) :
  numeral_value radix (s ++ [c]) =
  radix * numeral_value radix s + digit_value c.
Proof. unfold numeral_value. now rewrite fold_left_app. Qed.

(** With fuel above the binary length of [n] the loop stops on its own
    and the numeral stands for [n]. *)
Lemma digits_value (radix : Z) (fuel : nat) (n : Z) :
  2 <= radix <= 36 -> 0 < n < 2 ^ Z.of_nat fuel ->
  numeral_value radix (digits fuel radix n []) = n.
Proof.
  intros Hr. revert n; induction fuel as [|fuel IH]; intros n Hn.
  - change (2 ^ Z.of_nat 0) with 1 in Hn. lia.
  - cbn [digits].
    pose proof (Z.mod_pos_bound n radix ltac:(lia)) as Hm.
    pose proof (Z.div_mod n radix ltac:(lia)) as Hd.
    destruct (Z.eqb_spec (n / radix) 0) as [E|E].
    + unfold numeral_value. cbn [fold_left].
      rewrite digit_value_digit by lia. nia.
    + rewrite digits_acc, numeral_value_snoc, digit_value_digit by lia.
      rewrite IH; [lia|].
      assert (0 <= n / radix) by (apply Z.div_pos; lia).
      split; [lia|].
      apply Z.div_lt_upper_bound; [lia|].
      rewrite Nat2Z.inj_succ, Z.pow_succ_r in Hn by lia. nia.
Qed.

Lemma toString_value (radix n : Z) :
  2 <= radix <= 36 -> 0 <= n ->
  numeral_value radix (toString radix n) = n.
Proof.
  intros Hr Hn. unfold toString.
  destruct (Z.eq_dec n 0) as [->|Hne].
  - cbn [Z.log2 Z.to_nat digits]. rewrite Z.mod_0_l, Z.div_0_l by lia.
    rewrite Z.eqb_refl. unfold numeral_value. cbn [fold_left].
    rewrite digit_value_digit by lia. lia.
  - apply digits_value; [exact Hr|].
    split; [lia|].
    rewrite Nat2Z.inj_succ, Z2Nat.id by apply Z.log2_nonneg.
    apply Z.log2_spec. lia.
Qed.

(** ** Rendering of the checksum *)

Lemma count_from_In (n : nat) (from r : Z) :
  from <= r < from + Z.of_nat n -> In r (count_from from n).
Proof.
  revert from; induction n as [|n IH]; intros from H; [lia|].
  cbn [count_from]. destruct (Z.eq_dec from r) as [->|Hne].
  - now left.
  - right. apply IH. lia.
Qed.

Lemma registers_In (r : Z) : 0 <= r < 65536 -> In r registers.
Proof. intros H. apply count_from_In. lia. Qed.

Lemma hex4_table :
  forallb (fun n => Nat.eqb (List.length (hex4 n)) 4
                    && forallb is_upper_hex (hex4 n)
                    && (parse_hex (hex4 n) =? n)) registers = true.
Proof. vm_compute. reflexivity. Qed.

Lemma hex4_spec (n : Z) :
  0 <= n < 65536 ->
  List.length (hex4 n) = 4%nat /\
  forallb is_upper_hex (hex4 n) = true /\
  parse_hex (hex4 n) = n.
Proof.
  intros H. pose proof hex4_table as T.
  rewrite forallb_forall in T. specialize (T n (registers_In n H)).
  rewrite !andb_true_iff, Nat.eqb_eq, Z.eqb_eq in T. tauto.
Qed.

Lemma hex4_inj (n m : Z) :
  0 <= n < 65536 -> 0 <= m < 65536 -> hex4 n = hex4 m -> n = m.
Proof.
  intros Hn Hm E.
  destruct (hex4_spec n Hn) as (_ & _ & <-).
  destruct (hex4_spec m Hm) as (_ & _ & <-).
  now rewrite E.
Qed.

(** ** One register step is a bijection *)

Lemma unbit_table :
  forallb (fun r => unbit (ref_bit r) =? r) registers = true.
Proof. vm_compute. reflexivity. Qed.

Lemma unbit_ref_bit (r : Z) : 0 <= r < 65536 -> unbit (ref_bit r) = r.
Proof.
  intros H. pose proof unbit_table as T.
  rewrite forallb_forall in T. specialize (T r (registers_In r H)).
  now apply Z.eqb_eq.
Qed.

Lemma ref_bit_range (r : Z) : 0 <= ref_bit r < 65536.
Proof. unfold ref_bit. destruct (Z.testbit r 15); apply mask16_range. Qed.

Lemma iter_ref_bit_range (n : nat) (r : Z) :
  in16 r -> in16 (Nat.iter n ref_bit r).
Proof.
  intros H. destruct n as [|n]; [exact H|].
  rewrite Nat.iter_succ. apply ref_bit_range.
Qed.

Lemma iter_ref_bit_inj (n : nat) (r r' : Z) :
  in16 r -> in16 r' ->
  Nat.iter n ref_bit r = Nat.iter n ref_bit r' -> r = r'.
Proof.
  intros Hr Hr'. induction n as [|n IH]; [trivial|].
  rewrite !Nat.iter_succ. intros E. apply IH.
  rewrite <- (unbit_ref_bit (Nat.iter n ref_bit r)),
          <- (unbit_ref_bit (Nat.iter n ref_bit r'))
    by now apply iter_ref_bit_range.
  now rewrite E.
Qed.

Lemma lxor_in16 (a b : Z) : in16 a -> in16 b -> in16 (Z.lxor a b).
Proof.
  intros Ha Hb. unfold in16.
  rewrite <- (mask16_small a Ha), <- (mask16_small b Hb), <- mask16_lxor.
  apply mask16_range.
Qed.

Lemma high_byte_in16 (c : Z) : in16 (Z.shiftl (Z.land c 0xFF) 8).
Proof.
  unfold in16. change 0xFF with (Z.ones 8).
  rewrite Z.land_ones, Z.shiftl_mul_pow2 by lia.
  pose proof (Z.mod_pos_bound c (2 ^ 8) ltac:(lia)). lia.
Qed.

Lemma lxor_cancel_r (a a' b : Z) : Z.lxor a b = Z.lxor a' b -> a = a'.
Proof.
  intros E.
  rewrite <- (Z.lxor_0_r a), <- (Z.lxor_0_r a'), <- (Z.lxor_nilpotent b).
  now rewrite <- !Z.lxor_assoc, E.
Qed.

Lemma lxor_cancel_l (a b b' : Z) : Z.lxor a b = Z.lxor a b' -> b = b'.
Proof.
  rewrite (Z.lxor_comm a b), (Z.lxor_comm a b'). apply lxor_cancel_r.
Qed.

Lemma ref_byte_range (r c : Z) : in16 r -> in16 (ref_byte r c).
Proof.
  intros H. unfold ref_byte.
  apply iter_ref_bit_range, lxor_in16; [exact H | apply high_byte_in16].
Qed.

Lemma ref_byte_inj_register (r r' c : Z) :
  in16 r -> in16 r' -> ref_byte r c = ref_byte r' c -> r = r'.
Proof.
  intros Hr Hr' E. unfold ref_byte in E.
  apply iter_ref_bit_inj in E;
    try (apply lxor_in16; [assumption | apply high_byte_in16]).
  now apply lxor_cancel_r in E.
Qed.

Lemma ref_byte_inj_unit (r c c' : Z) :
  in16 r -> ref_byte r c = ref_byte r c' -> c mod 256 = c' mod 256.
Proof.
  intros Hr E. unfold ref_byte in E.
  apply iter_ref_bit_inj in E;
    try (apply lxor_in16; [assumption | apply high_byte_in16]).
  apply lxor_cancel_l in E. revert E.
  change 0xFF with (Z.ones 8).
  rewrite !Z.land_ones, !Z.shiftl_mul_pow2 by lia.
  change (2 ^ 8) with 256. lia.
Qed.

Lemma fold_ref_range (data : jsstring) (r : Z) :
  in16 r -> in16 (fold_left ref_byte data r).
Proof.
  revert r; induction data as [|c data IH]; intros r H; [exact H|].
  rewrite fold_left_cons. apply IH, ref_byte_range, H.
Qed.

Lemma fold_ref_inj (data : jsstring) (r r' : Z) :
  in16 r -> in16 r' ->
  fold_left ref_byte data r = fold_left ref_byte data r' -> r = r'.
Proof.
  revert r r'; induction data as [|c data IH]; intros r r' Hr Hr' E;
    [exact E|].
  rewrite !fold_left_cons in E.
  apply IH in E; try now apply ref_byte_range.
  now apply ref_byte_inj_register in E.
Qed.

(** Replacing one unit by one that differs in its low 8 bits changes the
    checksum. *)
Lemma calculateCRC16_one_unit (pre suf : jsstring) (c c' : Z) :
  c mod 256 <> c' mod 256 ->
  calculateCRC16 (pre ++ c :: suf) <> calculateCRC16 (pre ++ c' :: suf).
Proof.
  intros Hc E. rewrite !calculateCRC16_ref in E.
  unfold crc16_ccitt_false in E.
  rewrite !fold_left_app, !fold_left_cons in E.
  assert (H0 : in16 (fold_left ref_byte pre 0xFFFF)).
  { apply fold_ref_range. unfold in16. lia. }
  apply fold_ref_inj in E; try now apply ref_byte_range.
  now apply ref_byte_inj_unit in E.
Qed.

(** Units that agree in their low 8 bits give the same checksum. *)
Lemma calculateCRC16_low_bits (pre suf : jsstring) (c c' : Z) :
  Z.land c 0xFF = Z.land c' 0xFF ->
  calculateCRC16 (pre ++ c :: suf) = calculateCRC16 (pre ++ c' :: suf).
Proof.
  intros E. rewrite !calculateCRC16_ref. unfold crc16_ccitt_false.
  rewrite !fold_left_app, !fold_left_cons. unfold ref_byte at 2 4.
  now rewrite E.
Qed.

(** ** [substring] at the checksum boundary *)

Lemma length_app (a b : jsstring) : length (a ++ b) = length a + length b.
Proof. unfold length. rewrite List.length_app. lia. Qed.

Lemma substring_prefix (p h : jsstring) :
  substring (p ++ h) 0 (length (p ++ h) - length h) = p.
Proof.
  unfold substring, clamp. rewrite length_app.
  assert (0 <= length p) by (unfold length; lia).
  assert (0 <= length h) by (unfold length; lia).
  replace (Z.min (Z.max 0 0) (length p + length h)) with 0 by lia.
  replace (Z.min (Z.max (length p + length h - length h) 0)
             (length p + length h)) with (length p) by lia.
  replace (Z.min 0 (length p)) with 0 by lia.
  replace (Z.max 0 (length p) - 0) with (length p) by lia.
  unfold length. rewrite Nat2Z.id. change (Z.to_nat 0) with 0%nat.
  rewrite skipn_O, firstn_app, Nat.sub_diag, firstn_all, firstn_O.
  apply app_nil_r.
Qed.

Lemma substring_suffix (p h : jsstring) :
  substring_from (p ++ h) (length (p ++ h) - length h) = h.
Proof.
  unfold substring_from, substring, clamp. rewrite length_app.
  assert (0 <= length p) by (unfold length; lia).
  assert (0 <= length h) by (unfold length; lia).
  replace (Z.min (Z.max (length p + length h - length h) 0)
             (length p + length h)) with (length p) by lia.
  replace (Z.min (Z.max (length p + length h) 0) (length p + length h))
    with (length p + length h) by lia.
  replace (Z.min (length p) (length p + length h)) with (length p) by lia.
  replace (Z.max (length p) (length p + length h) - length p)
    with (length h) by lia.
  unfold length. rewrite !Nat2Z.id.
  rewrite skipn_app, Nat.sub_diag, skipn_all, skipn_O.
  apply firstn_all.
Qed.

(** ** The validator on a candidate split at its last four units *)

Lemma validatePixCode_split (p h : jsstring) :
  List.length h = 4%nat ->
  validatePixCode (p ++ h) =
  Returned (if length (p ++ h) <? 10 then false
            else eqb h (hex4 (calculateCRC16 p))).
Proof.
  intros Hh. unfold validatePixCode, try_catch.
  destruct (length (p ++ h) <? 10); [reflexivity|].
  replace 4 with (length h) by (unfold length; rewrite Hh; reflexivity).
  now rewrite substring_prefix, substring_suffix.
Qed.

(** * The checksum engine *)

(** C6. For every sequence of units, the empty one included,
    [calculateCRC16] yields a value between 0 and 0xFFFF, equal to
    CRC-16/CCITT-FALSE computed with a 16-bit register masked after every
    step and each unit truncated to 8 bits: masking once at the end of the
    unmasked 32-bit loop gives the same result. *)
Theorem calculateCRC16_ccitt_false (data : jsstring) :
  0 <= calculateCRC16 data <= 0xFFFF /\
  calculateCRC16 data = crc16_ccitt_false data.
Proof.
  split.
  - pose proof (calculateCRC16_range data). lia.
  - apply calculateCRC16_ref.
Qed.

(** C10. The checksum of the empty string is the initial register 0xFFFF,
    and a candidate of ten or more units that ends in "FFFF" and whose
    prefix has checksum 0xFFFF validates. *)
Theorem calculateCRC16_empty :
  calculateCRC16 [] = 0xFFFF /\
  forall prefix : jsstring,
    10 <= length (prefix ++ lit "FFFF") ->
    calculateCRC16 prefix = 0xFFFF ->
    validatePixCode (prefix ++ lit "FFFF") = Returned true.
Proof.
  split; [reflexivity|]. intros prefix Hlen Hcrc.
  rewrite validatePixCode_split by reflexivity.
  apply Z.ltb_ge in Hlen. rewrite Hlen, Hcrc. reflexivity.
Qed.

Lemma calculateCRC16_empty_witness :
  10 <= length (lit "00021F07" ++ lit "FFFF") /\
  calculateCRC16 (lit "00021F07") = 0xFFFF /\
  validatePixCode (lit "00021F07" ++ lit "FFFF") = Returned true.
Proof.
  assert (L : 10 <= length (lit "00021F07" ++ lit "FFFF"))
    by (vm_compute; discriminate).
  assert (C : calculateCRC16 (lit "00021F07") = 0xFFFF)
    by (vm_compute; reflexivity).
  split; [exact L|]. split; [exact C|].
  exact (proj2 calculateCRC16_empty (lit "00021F07") L C).
Defined.

(** * The validator *)

(** C7. [validatePixCode] completes by returning a boolean for every
    candidate, never by throwing, and the boolean is [false] whenever the
    candidate has fewer than 10 units, whatever they are. *)
Theorem validatePixCode_total (pixCode : jsstring) :
  (exists b, validatePixCode pixCode = Returned b) /\
  (length pixCode < 10 -> validatePixCode pixCode = Returned false).
Proof.
  unfold validatePixCode, try_catch. split.
  - destruct (length pixCode <? 10); eexists; reflexivity.
  - intros H. apply Z.ltb_lt in H. rewrite H. reflexivity.
Qed.

Lemma validatePixCode_total_witness :
  length (lit "6304FFFF") < 10 /\
  validatePixCode (lit "6304FFFF") = Returned false.
Proof.
  split; [vm_compute; reflexivity|].
  apply (validatePixCode_total (lit "6304FFFF")).
  vm_compute. reflexivity.
Defined.

(** * Composition *)

Lemma payload_head (PIX_KEY : option jsstring) (random : list Byte.byte)
  (amountStr : jsstring) :
  join (payload_parts PIX_KEY random amountStr) =
  lit "00020112" ++ join (skipn 4 (payload_parts PIX_KEY random amountStr)).
Proof. reflexivity. Qed.

Lemma payload_tail (PIX_KEY : option jsstring) (random : list Byte.byte)
  (amountStr : jsstring) :
  join (payload_parts PIX_KEY random amountStr) =
  join (firstn 32 (payload_parts PIX_KEY random amountStr)) ++ lit "6304".
Proof.
  unfold join, payload_parts. cbn [firstn List.concat].
  rewrite <- !app_assoc. reflexivity.
Qed.

(** A string of 6 or more units followed by its rendered checksum
    validates. *)
Lemma validatePixCode_checksummed (p : jsstring) :
  6 <= length p ->
  validatePixCode (p ++ hex4 (calculateCRC16 p)) = Returned true.
Proof.
  intros L.
  destruct (hex4_spec _ (calculateCRC16_range p)) as (H4 & _).
  rewrite validatePixCode_split by exact H4.
  rewrite length_app. unfold length at 2. rewrite H4.
  replace (length p + Z.of_nat 4 <? 10) with false
    by (symmetry; apply Z.ltb_ge; lia).
  now rewrite eqb_refl.
Qed.

Lemma payload_long (PIX_KEY : option jsstring) (random : list Byte.byte)
  (amountStr : jsstring) :
  6 <= length (join (payload_parts PIX_KEY random amountStr)).
Proof.
  rewrite payload_head, length_app.
  change (length (lit "00020112")) with 8.
  unfold length. lia.
Qed.

(** C1. Round trip: whatever the amount, the description, the PIX key
    and the random bytes drawn for the transaction reference, the output of
    [generatePixCode] is a prefix ending in the header "6304" followed by
    the rendered checksum of that prefix, and [validatePixCode] returns
    [true] on it. *)
Theorem generatePixCode_validates (PIX_KEY : option jsstring)
  (random : list Byte.byte) (amount : amount_arg) (description : jsstring) :
  (exists body,
     generatePixCode PIX_KEY random amount description =
     (body ++ lit "6304") ++ hex4 (calculateCRC16 (body ++ lit "6304"))) /\
  validatePixCode (generatePixCode PIX_KEY random amount description)
  = Returned true.
Proof.
  unfold generatePixCode. cbv zeta. split.
  - eexists. rewrite payload_tail. reflexivity.
  - apply validatePixCode_checksummed, payload_long.
Qed.

(** * Tamper detection *)

(** C2, as amended. In a candidate made of a prefix and the 4-digit
    uppercase hexadecimal checksum of that prefix, replacing one unit of the
    prefix by a unit that differs from it in the low 8 bits, the checksum
    left as it was, makes [validatePixCode] return [false]. *)
Theorem tamper_detected_low_byte (pre : jsstring) (c : Z) (suf : jsstring)
  (c' : Z) :
  c' mod 256 <> c mod 256 ->
  validatePixCode
    (pre ++ c' :: suf ++ hex4 (calculateCRC16 (pre ++ c :: suf)))
  = Returned false.
Proof.
  intros Hc. rewrite app_comm_cons, app_assoc.
  rewrite validatePixCode_split by (apply hex4_spec, calculateCRC16_range).
  destruct (_ <? 10); [reflexivity|]. f_equal.
  apply eqb_neq. intros E.
  apply hex4_inj in E; try apply calculateCRC16_range.
  apply calculateCRC16_one_unit in E; [exact E | congruence].
Qed.

Lemma tamper_detected_low_byte_witness :
  98 mod 256 <> 97 mod 256 /\
  validatePixCode
    (lit "00020" ++ 98 :: [] ++ hex4 (calculateCRC16 (lit "00020" ++ 97 :: [])))
  = Returned false.
Proof.
  split; [vm_compute; discriminate|].
  apply (tamper_detected_low_byte (lit "00020") 97 [] 98).
  vm_compute. discriminate.
Defined.

(** C2, as stated, fails: "a" (U+0061) replaced by the different unit
    U+0161 leaves the checksum, and the verdict [true], unchanged. *)
Lemma tamper_undetected_high_byte :
  ~ detects_any_replacement (lit "00020") 97 [] 353.
Proof.
  unfold detects_any_replacement. intros H.
  assert (E : 353 <> 97) by discriminate.
  specialize (H E). vm_compute in H. discriminate.
Qed.

(** * The payload layout *)

Lemma startsWith_app (n t : jsstring) : startsWith (n ++ t) n = true.
Proof.
  induction n as [|c n IH]; [now destruct t|].
  cbn [app startsWith]. now rewrite Z.eqb_refl, IH.
Qed.

Lemma includes_app (a n b : jsstring) : includes (a ++ n ++ b) n = true.
Proof.
  induction a as [|c a IH].
  - cbn [app]. destruct (n ++ b) eqn:E; cbn [includes];
      rewrite <- E, startsWith_app; reflexivity.
  - cbn [app includes]. rewrite IH. apply orb_true_r.
Qed.

Lemma digits_length (fuel : nat) (radix n : Z) (acc : jsstring) :
  (List.length acc <= List.length (digits fuel radix n acc))%nat.
Proof.
  revert n acc; induction fuel as [|fuel IH]; intros n acc; [reflexivity|].
  cbn [digits]. destruct (n / radix =? 0).
  - cbn [List.length]. lia.
  - etransitivity; [|apply IH]. cbn [List.length]. lia.
Qed.

Lemma String_three_digits (n : Z) :
  100 <= n -> (3 <= List.length (String_ n))%nat.
Proof.
  intros H. unfold String_, toString.
  assert (L : 6 <= Z.log2 n).
  { change 6 with (Z.log2 100). now apply Z.log2_le_mono. }
  destruct (Z.to_nat (Z.log2 n)) as [|[|k]] eqn:E; try lia.
  cbn [digits].
  assert (H1 : 10 <= n / 10) by (apply Z.div_le_lower_bound; lia).
  assert (H2 : 1 <= n / 10 / 10) by (apply Z.div_le_lower_bound; lia).
  destruct (Z.eqb_spec (n / 10) 0); [lia|].
  destruct (Z.eqb_spec (n / 10 / 10) 0); [lia|].
  destruct (n / 10 / 10 / 10 =? 0); [reflexivity|].
  etransitivity; [|apply digits_length]. reflexivity.
Qed.

Lemma padStart_long (n fill : Z) (s : jsstring) :
  n <= length s -> padStart n fill s = s.
Proof.
  intros H. unfold padStart.
  replace (Z.to_nat (n - length s)) with 0%nat by lia. reflexivity.
Qed.

Lemma payload_amount (PIX_KEY : option jsstring) (random : list Byte.byte)
  (amountStr : jsstring) :
  join (payload_parts PIX_KEY random amountStr) =
  join (firstn 15 (payload_parts PIX_KEY random amountStr))
  ++ lit "54" ++ len2 (length amountStr) ++ amountStr
  ++ join (skipn 18 (payload_parts PIX_KEY random amountStr)).
Proof.
  unfold join, payload_parts. cbn [firstn skipn List.concat].
  rewrite <- !app_assoc. reflexivity.
Qed.

(** C3, on the code. With [PIX_KEY] unset the payload declares a tag-26
    template of 48 units, while the encoded GUI and key sub-fields that
    follow take 51 units, the length of the key plus 22: the source adds 19
    to the key length where the sub-fields add 22. *)
Theorem merchant_account_length_field (random : list Byte.byte)
  (amount : amount_arg) (description : jsstring) :
  exists rest,
    generatePixCode None random amount description =
    lit "00020112" ++ lit "26" ++ lit "48"
    ++ merchant_account_fields None ++ rest /\
    merchant_account_fields None =
    lit "0014br.gov.bcb.pix0129contato@deltasilkprint.com.br" /\
    length (merchant_account_fields None) = 51 /\
    length (pixKey None) + 22 = 51 /\
    len2 (length (pixKey None) + 19) = lit "48".
Proof.
  eexists. split; [|repeat split].
  unfold generatePixCode. cbv zeta.
  unfold join at 2, payload_parts. cbn [List.concat].
  change (len2 (length (pixKey None) + 19)) with (lit "48").
  unfold merchant_account_fields, join. cbn [List.concat].
  rewrite <- !app_assoc. reflexivity.
Qed.

(** C4, as amended. With amount "10.00" and PIX key "test@example.com",
    whatever the random bytes and the description, the payload starts with
    "000201", contains "5405" immediately followed by "10.00", and ends with
    four uppercase hexadecimal digits that are the checksum of what precedes
    them and that [validatePixCode] confirms. *)
Theorem concrete_vector (random : list Byte.byte) (description : jsstring) :
  let p := generatePixCode test_key random (AmountString (lit "10.00"))
             description in
  startsWith p (lit "000201") = true /\
  includes p (lit "5405" ++ lit "10.00") = true /\
  (exists prefix, p = prefix ++ hex4 (calculateCRC16 prefix) /\
                  substring_from p (length p - 4)
                  = hex4 (calculateCRC16 prefix)) /\
  forallb is_upper_hex (substring_from p (length p - 4)) = true /\
  validatePixCode p = Returned true.
Proof.
  intros p.
  assert (Hsuffix : substring_from p (length p - 4) =
                    hex4 (calculateCRC16
                            (join (payload_parts test_key random
                                     (lit "10.00"))))).
  { subst p. unfold generatePixCode. cbv zeta.
    cbn [amount_toString].
    set (q := join (payload_parts test_key random (lit "10.00"))).
    destruct (hex4_spec _ (calculateCRC16_range q)) as (L & _).
    replace 4 with (length (hex4 (calculateCRC16 q)))
      by (unfold length; rewrite L; reflexivity).
    apply substring_suffix. }
  split; [|split; [|split; [|split]]].
  - subst p. unfold generatePixCode. cbv zeta.
    rewrite payload_head. change (lit "00020112") with (lit "000201" ++ lit "12").
    rewrite <- !app_assoc. apply startsWith_app.
  - subst p. unfold generatePixCode. cbv zeta.
    rewrite payload_amount. cbn [amount_toString].
    change (len2 (length (lit "10.00"))) with (lit "05").
    assert (E : forall t, lit "54" ++ lit "05" ++ lit "10.00" ++ t
                          = (lit "5405" ++ lit "10.00") ++ t)
      by reflexivity.
    rewrite <- !app_assoc, E. apply includes_app.
  - eexists. split; [reflexivity | exact Hsuffix].
  - rewrite Hsuffix. apply hex4_spec, calculateCRC16_range.
  - subst p. unfold generatePixCode. cbv zeta.
    apply validatePixCode_checksummed, payload_long.
Qed.

(** C4, as stated, fails: with sixteen zero random bytes the payload has
    "5405" before "10.00" and nowhere "5402" followed by "10.00". *)
Lemma vector_with_5402_fails : ~ vector_with_5402 zero_bytes [].
Proof.
  intros (_ & _ & H & _). vm_compute in H. discriminate.
Qed.

(** C5, as amended. [generatePixCode] has no length guard: when the amount
    has 100 or more units the call still returns a payload, in which the
    whole amount follows tag 54 and a length field that is the decimal
    numeral of its length, three or more digits wide. *)
Theorem long_amount_not_rejected (PIX_KEY : option jsstring)
  (random : list Byte.byte) (amount : amount_arg) (description : jsstring) :
  100 <= length (amount_toString amount) ->
  exists tail,
    generatePixCode_call PIX_KEY random amount description =
    Returned (join (firstn 15 (payload_parts PIX_KEY random
                                 (amount_toString amount)))
              ++ lit "54" ++ String_ (length (amount_toString amount))
              ++ amount_toString amount ++ tail) /\
    (3 <= List.length (String_ (length (amount_toString amount))))%nat.
Proof.
  intros H.
  pose proof (String_three_digits _ H) as L.
  eexists. split; [|exact L].
  unfold generatePixCode_call, generatePixCode. cbv zeta.
  rewrite payload_amount. unfold len2.
  rewrite padStart_long by (unfold length at 1; lia).
  rewrite <- !app_assoc. reflexivity.
Qed.

Lemma long_amount_not_rejected_witness :
  exists tail,
    generatePixCode_call None zero_bytes (AmountString hundred_ones) [] =
    Returned (join (firstn 15 (payload_parts None zero_bytes hundred_ones))
              ++ lit "54" ++ String_ (length hundred_ones)
              ++ hundred_ones ++ tail) /\
    (3 <= List.length (String_ (length hundred_ones)))%nat.
Proof.
  apply (long_amount_not_rejected None zero_bytes (AmountString hundred_ones) []).
  vm_compute. discriminate.
Defined.

(** C5, as stated, fails: an amount of one hundred "1" is not rejected. *)
Lemma long_amount_accepted :
  ~ rejects_long_amount None zero_bytes (AmountString hundred_ones) [].
Proof.
  unfold rejects_long_amount. intros H.
  destruct H as [e H]; [vm_compute; discriminate|].
  unfold generatePixCode_call in H. discriminate H.
Qed.

(** * The cache *)

Lemma Map_has_In (m : Map) (k : jsstring) :
  Map_has m k = true <-> In k (Map_keys m).
Proof.
  unfold Map_has. induction m as [|[k' v] m IH]; cbn [Map_get Map_keys map fst In].
  - split; [discriminate | tauto].
  - destruct (eqb k' k) eqn:E.
    + apply eqb_eq in E. split; auto.
    + apply eqb_neq in E. rewrite IH. unfold Map_keys. tauto.
Qed.

Lemma Map_has_not_In (m : Map) (k : jsstring) :
  Map_has m k = false <-> ~ In k (Map_keys m).
Proof.
  rewrite <- Map_has_In. destruct (Map_has m k); split; congruence.
Qed.

Lemma Map_set_fresh (m : Map) (k v : jsstring) :
  Map_has m k = false -> Map_set m k v = m ++ [(k, v)].
Proof.
  unfold Map_has. induction m as [|[k' v'] m IH]; cbn [Map_get Map_set app];
    [reflexivity|].
  destruct (eqb k' k); [discriminate|]. intros H. now rewrite IH.
Qed.

Lemma Map_keys_app (m m' : Map) :
  Map_keys (m ++ m') = Map_keys m ++ Map_keys m'.
Proof. apply map_app. Qed.

Lemma Map_delete_first (m : Map) (k : jsstring) :
  Map_first_key m = Some k -> Map_delete m k = tl m.
Proof.
  destruct m as [|[k' v] m]; [discriminate|].
  cbn. intros [= ->]. now rewrite eqb_refl.
Qed.

Lemma distinct_NoDup (ks : list jsstring) : distinct ks = true -> NoDup ks.
Proof.
  induction ks as [|k ks IH]; cbn [distinct]; [constructor|].
  rewrite andb_true_iff, negb_true_iff. intros [H1 H2].
  constructor; [|now apply IH].
  intros Hin. assert (E : existsb (eqb k) ks = true).
  { apply existsb_exists. exists k. split; [exact Hin | apply eqb_refl]. }
  congruence.
Qed.

Section CacheProperties.

Variable World : Type.
Variable toDataURL : World -> jsstring -> completion jsstring * World.

Lemma hit_unchanged (st : state World) (k : jsstring) :
  Map_has (qrCodeCache st) k = true -> snd (generatePixQRCode toDataURL st k) = st.
Proof. intros H. unfold generatePixQRCode. now rewrite H. Qed.

Lemma hits_unchanged (hits : list jsstring) (st : state World) :
  (forall h, In h hits -> Map_has (qrCodeCache st) h = true) ->
  run toDataURL st hits = st.
Proof.
  induction hits as [|h hits IH]; intros H; [reflexivity|].
  unfold run. rewrite fold_left_cons.
  rewrite hit_unchanged by (apply H; now left).
  apply IH. intros h' Hh'. apply H. now right.
Qed.

Lemma miss_below_capacity (st : state World) (k url : jsstring) (w : World) :
  Map_has (qrCodeCache st) k = false ->
  Map_size (qrCodeCache st) < 100 ->
  toDataURL (world st) k = (Returned url, w) ->
  generatePixQRCode toDataURL st k =
  (Returned url,
   mkState (qrCodeCache st ++ [(k, url)]) w (rendered st ++ [k])).
Proof.
  intros Hm Hs Hr. unfold generatePixQRCode. rewrite Hm, Hr.
  apply Z.leb_gt in Hs. rewrite Hs. now rewrite Map_set_fresh.
Qed.

Lemma miss_at_capacity (st : state World) (k url : jsstring) (w : World) :
  ~ In k (Map_keys (qrCodeCache st)) ->
  100 <= Map_size (qrCodeCache st) ->
  toDataURL (world st) k = (Returned url, w) ->
  generatePixQRCode toDataURL st k =
  (Returned url,
   mkState (tl (qrCodeCache st) ++ [(k, url)]) w (rendered st ++ [k])).
Proof.
  intros Hm Hs Hr. unfold generatePixQRCode.
  rewrite (proj2 (Map_has_not_In _ _) Hm), Hr.
  apply Z.leb_le in Hs. rewrite Hs.
  destruct (qrCodeCache st) as [|[k0 v0] m] eqn:E; [discriminate|].
  cbn [Map_first_key Map_keys map fst hd_error Map_delete tl].
  rewrite eqb_refl. rewrite Map_set_fresh; [reflexivity|].
  apply Map_has_not_In. intros Hin. apply Hm. right. exact Hin.
Qed.

(** Distinct new payloads that fit are appended in request order. *)
Lemma misses_appended (ks : list jsstring) (st : state World) :
  NoDup ks ->
  (forall k, In k ks -> ~ In k (Map_keys (qrCodeCache st))) ->
  Map_size (qrCodeCache st) + Z.of_nat (List.length ks) <= 100 ->
  (forall w k, In k ks -> exists url w', toDataURL w k = (Returned url, w')) ->
  Map_keys (qrCodeCache (run toDataURL st ks)) = Map_keys (qrCodeCache st) ++ ks /\
  rendered (run toDataURL st ks) = rendered st ++ ks.
Proof.
  revert st; induction ks as [|k ks IH]; intros st Hnd Hfresh Hsize Hok.
  - cbn. now rewrite !app_nil_r.
  - unfold run. rewrite fold_left_cons. fold (run toDataURL (snd (generatePixQRCode toDataURL st k)) ks).
    destruct (Hok (world st) k (or_introl eq_refl)) as (url & w & Hr).
    rewrite (miss_below_capacity st k url w); cbn [snd List.length] in *.
    + inversion Hnd as [|? ? Hk Hnd']; subst.
      destruct (IH (mkState (qrCodeCache st ++ [(k, url)]) w
                      (rendered st ++ [k]))) as [IH1 IH2].
      * exact Hnd'.
      * cbn [qrCodeCache]. rewrite Map_keys_app. cbn.
        intros k' Hk' Hin. apply in_app_or in Hin.
        destruct Hin as [Hin|[->|[]]]; [|contradiction].
        apply (Hfresh k'); [now right | exact Hin].
      * cbn [qrCodeCache]. unfold Map_size in *.
        rewrite List.length_app. cbn [List.length]. lia.
      * intros w0 k0 Hk0. apply Hok. now right.
      * cbn [qrCodeCache rendered] in *. rewrite IH1, IH2, Map_keys_app.
        cbn. now rewrite <- !app_assoc.
    + apply Map_has_not_In, Hfresh. now left.
    + lia.
    + exact Hr.
Qed.

Lemma run_app (st : state World) (ks ks' : list jsstring) :
  run toDataURL st (ks ++ ks') = run toDataURL (run toDataURL st ks) ks'.
Proof. apply fold_left_app. Qed.

Lemma Map_keys_tl (m : Map) : Map_keys (tl m) = tl (Map_keys m).
Proof. now destruct m. Qed.

Lemma Map_keys_length (m : Map) :
  Map_size m = Z.of_nat (List.length (Map_keys m)).
Proof. unfold Map_size, Map_keys. now rewrite length_map. Qed.

(** C8. From an empty cache, 101 distinct payloads rendered in sequence
    leave exactly the last 100 in the cache, in request order: the first is
    evicted and a lookup for it misses, the others are present.  Requests
    for payloads already cached, made before the 101st, do not call the
    renderer and do not change which entry is evicted. *)
Theorem cache_fifo_eviction (w0 : World) (ks hits : list jsstring) :
  NoDup ks ->
  List.length ks = 101%nat ->
  (forall w k, In k ks -> exists url w', toDataURL w k = (Returned url, w')) ->
  (forall h, In h hits -> In h (firstn 100 ks)) ->
  let st := run toDataURL (mkState [] w0 [])
              (firstn 100 ks ++ hits ++ skipn 100 ks) in
  Map_keys (qrCodeCache st) = tl ks /\
  Map_has (qrCodeCache st) (hd [] ks) = false /\
  (forall k, In k (tl ks) -> Map_has (qrCodeCache st) k = true) /\
  rendered st = ks.
Proof.
  intros Hnd Hlen Hok Hhits st.
  pose proof (firstn_skipn 100 ks) as Hsplit.
  assert (HA : List.length (firstn 100 ks) = 100%nat)
    by (rewrite length_firstn; lia).
  assert (HB : List.length (skipn 100 ks) = 1%nat)
    by (rewrite length_skipn; lia).
  revert st. set (A := firstn 100 ks) in *. 
  destruct (skipn 100 ks) as [|l [|? ?]]; try discriminate HB. clear HB.
  intros st.
  assert (HndA : NoDup A /\ ~ In l A).
  { rewrite <- Hsplit in Hnd. apply NoDup_remove in Hnd.
    rewrite app_nil_r in Hnd. exact Hnd. }
  destruct HndA as [HndA HlA].
  (* the first hundred are appended *)
  destruct (misses_appended A (mkState [] w0 []) HndA) as [K1 R1].
  { intros k _ []. }
  { cbn [qrCodeCache]. unfold Map_size. cbn [List.length]. lia. }
  { intros w k Hk. apply Hok. rewrite <- Hsplit. apply in_or_app. now left. }
  cbn [qrCodeCache rendered Map_keys map app] in K1, R1.
  fold (Map_keys (qrCodeCache (run toDataURL (mkState [] w0 []) A))) in K1.
  set (st1 := run toDataURL (mkState [] w0 []) A) in *.
  (* the hits change nothing *)
  assert (H2 : run toDataURL st1 hits = st1).
  { apply hits_unchanged. intros h Hh. apply Map_has_In.
    rewrite K1. now apply Hhits. }
  (* the 101st evicts the first *)
  destruct (Hok (world st1) l) as (url & w & Hr).
  { rewrite <- Hsplit. apply in_or_app. right. now left. }
  assert (H3 : generatePixQRCode toDataURL st1 l =
               (Returned url,
                mkState (tl (qrCodeCache st1) ++ [(l, url)]) w
                  (rendered st1 ++ [l]))).
  { apply miss_at_capacity; [now rewrite K1 | | exact Hr].
    rewrite Map_keys_length, K1, HA. reflexivity. }
  assert (Hst : st = mkState (tl (qrCodeCache st1) ++ [(l, url)]) w
                       (rendered st1 ++ [l])).
  { subst st. rewrite !run_app. fold st1. rewrite H2.
    unfold run. rewrite fold_left_cons. cbn [fold_left].
    now rewrite H3. }
  assert (Hkeys : Map_keys (qrCodeCache st) = tl ks).
  { rewrite Hst. cbn [qrCodeCache].
    rewrite Map_keys_app, Map_keys_tl, K1. cbn [Map_keys map fst].
    rewrite <- Hsplit. destruct A; [discriminate HA | reflexivity]. }
  split; [exact Hkeys|]. split; [|split].
  - apply Map_has_not_In. rewrite Hkeys.
    destruct ks as [|k1 rest]; [discriminate Hlen|].
    cbn [hd tl]. now inversion Hnd.
  - intros k Hk. apply Map_has_In. now rewrite Hkeys.
  - rewrite Hst. cbn [rendered]. now rewrite R1.
Qed.

(** C9. When the renderer is called for a payload and fails, the call
    completes by throwing, the cache is left as it was, and the next call
    with the same payload calls the renderer again. *)
Theorem render_failure_not_cached (st : state World) (k e : jsstring)
  (w : World) :
  Map_has (qrCodeCache st) k = false ->
  toDataURL (world st) k = (Thrown e, w) ->
  let r := generatePixQRCode toDataURL st k in
  fst r = Thrown (lit "Failed to generate QR code") /\
  qrCodeCache (snd r) = qrCodeCache st /\
  rendered (snd r) = rendered st ++ [k] /\
  rendered (snd (generatePixQRCode toDataURL (snd r) k))
  = rendered (snd r) ++ [k].
Proof.
  intros Hm Hr r.
  assert (E : r = (Thrown (lit "Failed to generate QR code"),
                   mkState (qrCodeCache st) w (rendered st ++ [k]))).
  { subst r. unfold generatePixQRCode. now rewrite Hm, Hr. }
  rewrite E. cbn [fst snd qrCodeCache rendered].
  repeat split.
  unfold generatePixQRCode. cbn [qrCodeCache world rendered]. rewrite Hm.
  destruct (toDataURL w k) as [[url|e'] w']; reflexivity.
Qed.

End CacheProperties.

Lemma cache_fifo_eviction_witness :
  let st := run echo_renderer (mkState [] tt [])
              (firstn 100 sample_payloads ++ [[0]]
               ++ skipn 100 sample_payloads) in
  Map_keys (qrCodeCache st) = tl sample_payloads /\
  Map_has (qrCodeCache st) (hd [] sample_payloads) = false /\
  (forall k, In k (tl sample_payloads) ->
             Map_has (qrCodeCache st) k = true) /\
  rendered st = sample_payloads.
Proof.
  apply (cache_fifo_eviction unit echo_renderer tt sample_payloads [[0]]).
  - apply distinct_NoDup. vm_compute. reflexivity.
  - vm_compute. reflexivity.
  - intros w k _. exists k, w. reflexivity.
  - intros h [<-|[]]. vm_compute. left. reflexivity.
Defined.

Lemma render_failure_not_cached_witness :
  let st := mkState [] false [] in
  let r := generatePixQRCode flaky_renderer st (lit "000201") in
  fst r = Thrown (lit "Failed to generate QR code") /\
  qrCodeCache (snd r) = qrCodeCache st /\
  rendered (snd r) = rendered st ++ [lit "000201"] /\
  rendered (snd (generatePixQRCode flaky_renderer (snd r) (lit "000201")))
  = rendered (snd r) ++ [lit "000201"].
Proof.
  apply (render_failure_not_cached bool flaky_renderer
           (mkState [] false []) (lit "000201") (lit "render failed") true).
  - vm_compute. reflexivity.
  - vm_compute. reflexivity.
Defined.

(** * Further properties of the checksum *)

Lemma low_byte_mod (c : Z) : low_byte c = c mod 256.
Proof.
  unfold low_byte. change 0xFF with (Z.ones 8).
  rewrite Z.land_ones by lia. reflexivity.
Qed.

Lemma ref_byte_low_byte (r c : Z) : ref_byte r (low_byte c) = ref_byte r c.
Proof.
  unfold ref_byte, low_byte.
  now rewrite <- Z.land_assoc, Z.land_diag.
Qed.

Lemma fold_ref_low_bytes (s : jsstring) (r : Z) :
  fold_left ref_byte (map low_byte s) r = fold_left ref_byte s r.
Proof.
  revert r; induction s as [|c s IH]; intros r; [reflexivity|].
  cbn [map]. rewrite !fold_left_cons, ref_byte_low_byte. apply IH.
Qed.

(** X1. The checksum only sees the low 8 bits of each UTF-16 unit: a
    string and its unit-wise truncation to 8 bits have the same checksum,
    so [validatePixCode] gives the same verdict on both prefixes. *)
Theorem calculateCRC16_low_bytes (p h : jsstring) :
  List.length h = 4%nat ->
  calculateCRC16 (map low_byte p) = calculateCRC16 p /\
  validatePixCode (map low_byte p ++ h) = validatePixCode (p ++ h).
Proof.
  intros Hh.
  assert (E : calculateCRC16 (map low_byte p) = calculateCRC16 p).
  { rewrite !calculateCRC16_ref. apply fold_ref_low_bytes. }
  split; [exact E|].
  rewrite !validatePixCode_split, E by exact Hh.
  rewrite !length_app. unfold length. now rewrite length_map.
Qed.

Lemma calculateCRC16_low_bytes_witness :
  calculateCRC16 (map low_byte (lit "00020" ++ [353]))
  = calculateCRC16 (lit "00020" ++ [353]) /\
  validatePixCode (map low_byte (lit "00020" ++ [353]) ++ lit "D34C")
  = validatePixCode ((lit "00020" ++ [353]) ++ lit "D34C").
Proof.
  apply (calculateCRC16_low_bytes (lit "00020" ++ [353]) (lit "D34C")).
  reflexivity.
Defined.

(** X2. Extending two strings by the same suffix preserves and reflects
    equality of their checksums: the checksum of a concatenation depends on
    the first part through its checksum only, and never merges two
    different checksums. *)
Theorem calculateCRC16_app (a a' b : jsstring) :
  calculateCRC16 (a ++ b) = calculateCRC16 (a' ++ b) <->
  calculateCRC16 a = calculateCRC16 a'.
Proof.
  rewrite !calculateCRC16_ref. unfold crc16_ccitt_false.
  rewrite !fold_left_app. split.
  - apply fold_ref_inj; apply fold_ref_range; unfold in16; lia.
  - intros ->. reflexivity.
Qed.

Lemma residue_table :
  forallb (fun r => ref_byte (ref_byte r (Z.shiftr r 8)) (Z.land r 0xFF) =? 0)
    registers = true.
Proof. vm_compute. reflexivity. Qed.

(** X3. Residue: a string followed by the two bytes of its own checksum,
    high byte first, has checksum 0. *)
Theorem calculateCRC16_residue (s : jsstring) :
  calculateCRC16
    (s ++ [Z.shiftr (calculateCRC16 s) 8; Z.land (calculateCRC16 s) 0xFF])
  = 0.
Proof.
  pose proof (calculateCRC16_range s) as R.
  rewrite (calculateCRC16_ref (s ++ _)). unfold crc16_ccitt_false.
  rewrite fold_left_app, !fold_left_cons. cbn [fold_left].
  fold (crc16_ccitt_false s). rewrite <- calculateCRC16_ref.
  pose proof residue_table as T. rewrite forallb_forall in T.
  apply Z.eqb_eq, T, registers_In, R.
Qed.

(** ** The register steps are linear over XOR *)

Lemma ref_bit_lxor (x y : Z) :
  ref_bit (Z.lxor x y) = Z.lxor (ref_bit x) (ref_bit y).
Proof.
  unfold ref_bit. rewrite Z.lxor_spec, Z.shiftl_lxor.
  destruct (Z.testbit x 15), (Z.testbit y 15); cbn [xorb];
    rewrite ?mask16_lxor; apply Z.bits_inj'; intros n _;
    rewrite ?Z.lxor_spec;
    destruct (Z.testbit (mask16 (Z.shiftl x 1)) n),
             (Z.testbit (mask16 (Z.shiftl y 1)) n),
             (Z.testbit (mask16 0x1021) n); reflexivity.
Qed.

Lemma ref_bits8_lxor (x y : Z) :
  ref_bits8 (Z.lxor x y) = Z.lxor (ref_bits8 x) (ref_bits8 y).
Proof.
  unfold ref_bits8. generalize 8%nat. intros n.
  induction n as [|n IH]; [reflexivity|].
  now rewrite !Nat.iter_succ, IH, ref_bit_lxor.
Qed.

Lemma ref_byte_bits8 (r c : Z) :
  ref_byte r c = ref_bits8 (Z.lxor r (Z.shiftl (low_byte c) 8)).
Proof. reflexivity. Qed.

Lemma high_byte_table :
  forallb (fun e => (e =? 0) || negb (Z.land (ref_bits8 (Z.shiftl e 8)) 0xFF =? 0))
    byte_values = true.
Proof. vm_compute. reflexivity. Qed.

Lemma low_byte_range (c : Z) : 0 <= low_byte c < 256.
Proof. rewrite low_byte_mod. apply Z.mod_pos_bound. lia. Qed.

Lemma lxor_bytes_range (a b : Z) :
  0 <= a < 256 -> 0 <= b < 256 -> 0 <= Z.lxor a b < 256.
Proof.
  intros Ha Hb.
  assert (E : Z.lxor a b = Z.land (Z.lxor a b) 0xFF).
  { apply Z.bits_inj'. intros n Hn.
    rewrite Z.land_spec, Z.lxor_spec.
    destruct (Z.ltb_spec n 8).
    - change 0xFF with (Z.ones 8). rewrite Z.ones_spec_low by lia.
      now rewrite andb_true_r.
    - rewrite (Z.bits_above_log2 a n), (Z.bits_above_log2 b n); [reflexivity| | | | ].
      + lia.
      + destruct (Z.eq_dec b 0) as [->|]; [cbn; lia|].
        assert (Z.log2 b < 8) by (apply Z.log2_lt_pow2; lia). lia.
      + lia.
      + destruct (Z.eq_dec a 0) as [->|]; [cbn; lia|].
        assert (Z.log2 a < 8) by (apply Z.log2_lt_pow2; lia). lia. }
  rewrite E. fold (low_byte (Z.lxor a b)). apply low_byte_range.
Qed.

Lemma shifted_byte_low (f : Z) : Z.land (Z.shiftl f 8) 0xFF = 0.
Proof.
  apply Z.bits_inj'. intros n Hn.
  rewrite Z.land_spec, Z.bits_0.
  destruct (Z.ltb_spec n 8).
  - rewrite Z.shiftl_spec_low by lia. reflexivity.
  - change 0xFF with (Z.ones 8). rewrite Z.ones_spec_high by lia.
    apply andb_false_r.
Qed.

Lemma ref_bits8_inj (x y : Z) :
  in16 x -> in16 y -> ref_bits8 x = ref_bits8 y -> x = y.
Proof. unfold ref_bits8. apply iter_ref_bit_inj. Qed.

Lemma lxor_swap (u v k1 k2 : Z) :
  Z.lxor u k1 = Z.lxor v k2 -> Z.lxor u v = Z.lxor k1 k2.
Proof.
  intros E.
  assert (Hu : u = Z.lxor (Z.lxor v k2) k1).
  { rewrite <- E, Z.lxor_assoc, Z.lxor_nilpotent. symmetry. apply Z.lxor_0_r. }
  rewrite Hu, (Z.lxor_comm (Z.lxor (Z.lxor v k2) k1) v).
  rewrite <- !Z.lxor_assoc, Z.lxor_nilpotent, Z.lxor_0_l.
  apply Z.lxor_comm.
Qed.

Lemma lxor_common (r h1 h2 : Z) :
  Z.lxor (Z.lxor r h1) (Z.lxor r h2) = Z.lxor h1 h2.
Proof.
  rewrite (Z.lxor_comm r h1), Z.lxor_assoc, <- (Z.lxor_assoc r r h2).
  now rewrite Z.lxor_nilpotent, Z.lxor_0_l.
Qed.

Lemma high_byte_nonzero (e : Z) :
  0 <= e < 256 -> Z.land (ref_bits8 (Z.shiftl e 8)) 0xFF = 0 -> e = 0.
Proof.
  intros He H0.
  pose proof high_byte_table as T. rewrite forallb_forall in T.
  specialize (T e (count_from_In 256 0 e ltac:(lia))).
  apply orb_true_iff in T. destruct T as [T|T].
  - now apply Z.eqb_eq.
  - rewrite H0 in T. discriminate T.
Qed.

(** Two units fed one after the other: the register tells them apart. *)
Lemma ref_byte_pair_inj (r c1 c2 d1 d2 : Z) :
  in16 r ->
  ref_byte (ref_byte r c1) c2 = ref_byte (ref_byte r d1) d2 ->
  low_byte c1 = low_byte d1 /\ low_byte c2 = low_byte d2.
Proof.
  intros Hr E.
  assert (E1 : low_byte c1 = low_byte d1).
  { rewrite (ref_byte_bits8 _ c2), (ref_byte_bits8 _ d2) in E.
    apply ref_bits8_inj in E;
      try (apply lxor_in16; [now apply ref_byte_range | apply high_byte_in16]).
    rewrite !ref_byte_bits8 in E.
    apply lxor_swap in E.
    rewrite <- ref_bits8_lxor, lxor_common, <- !Z.shiftl_lxor in E.
    apply Z.lxor_eq, high_byte_nonzero.
    - apply lxor_bytes_range; apply low_byte_range.
    - rewrite E. apply shifted_byte_low. }
  split; [exact E1|].
  assert (E2 : ref_byte r c1 = ref_byte r d1).
  { rewrite <- (ref_byte_low_byte r c1), <- (ref_byte_low_byte r d1).
    now rewrite E1. }
  rewrite E2 in E.
  apply ref_byte_inj_unit in E; [|now apply ref_byte_range].
  now rewrite !low_byte_mod.
Qed.

Lemma calculateCRC16_two_units (pre suf : jsstring) (c1 c2 d1 d2 : Z) :
  low_byte d1 <> low_byte c1 \/ low_byte d2 <> low_byte c2 ->
  calculateCRC16 (pre ++ c1 :: c2 :: suf)
  <> calculateCRC16 (pre ++ d1 :: d2 :: suf).
Proof.
  intros Hc E. rewrite !calculateCRC16_ref in E.
  unfold crc16_ccitt_false in E.
  rewrite !fold_left_app, !fold_left_cons in E.
  assert (H0 : in16 (fold_left ref_byte pre 0xFFFF)).
  { apply fold_ref_range. unfold in16. lia. }
  apply fold_ref_inj in E; try now repeat apply ref_byte_range.
  apply ref_byte_pair_inj in E; [|exact H0].
  destruct E as [E1 E2], Hc as [Hc|Hc]; congruence.
Qed.

(** X4. A change confined to two adjacent units of the prefix is detected
    whenever the low bytes of the new pair differ from those of the old
    pair, the checksum suffix left as it was; in particular swapping two
    adjacent different Latin-1 characters makes [validatePixCode] return
    [false]. *)
Theorem two_units_detected (pre suf : jsstring) (c1 c2 d1 d2 : Z) :
  low_byte d1 <> low_byte c1 \/ low_byte d2 <> low_byte c2 ->
  validatePixCode
    (pre ++ d1 :: d2 :: suf
     ++ hex4 (calculateCRC16 (pre ++ c1 :: c2 :: suf)))
  = Returned false.
Proof.
  intros Hc.
  change (pre ++ d1 :: d2 :: suf ++ ?h) with (pre ++ (d1 :: d2 :: suf) ++ h).
  rewrite app_assoc.
  rewrite validatePixCode_split by (apply hex4_spec, calculateCRC16_range).
  destruct (_ <? 10); [reflexivity|]. f_equal.
  apply eqb_neq. intros E.
  apply hex4_inj in E; try apply calculateCRC16_range.
  now apply calculateCRC16_two_units in E.
Qed.

Lemma two_units_detected_witness :
  (low_byte 98 <> low_byte 97 \/ low_byte 97 <> low_byte 98) /\
  validatePixCode
    (lit "0002" ++ 98 :: 97 :: lit "01"
     ++ hex4 (calculateCRC16 (lit "0002" ++ 97 :: 98 :: lit "01")))
  = Returned false.
Proof.
  assert (H : low_byte 98 <> low_byte 97 \/ low_byte 97 <> low_byte 98)
    by (left; vm_compute; discriminate).
  split; [exact H|].
  exact (two_units_detected (lit "0002") (lit "01") 97 98 98 97 H).
Defined.

(** * Further properties of the validator *)

(** X5. For a candidate of ten or more units, [validatePixCode] returns
    [true] exactly when the last four units are the uppercase 4-digit
    hexadecimal checksum of the units before them: each prefix of six or
    more units has one and only one accepted suffix. *)
Theorem validatePixCode_iff (p h : jsstring) :
  List.length h = 4%nat ->
  6 <= length p ->
  (validatePixCode (p ++ h) = Returned true <->
   h = hex4 (calculateCRC16 p)).
Proof.
  intros Hh Hp. rewrite validatePixCode_split by exact Hh.
  rewrite length_app. unfold length at 2. rewrite Hh.
  replace (length p + Z.of_nat 4 <? 10) with false
    by (symmetry; apply Z.ltb_ge; lia).
  rewrite <- eqb_eq. split; [intros [= ->]; reflexivity | intros ->; reflexivity].
Qed.

Lemma validatePixCode_iff_witness :
  validatePixCode (lit "00021F07" ++ lit "FFFF") = Returned true <->
  lit "FFFF" = hex4 (calculateCRC16 (lit "00021F07")).
Proof.
  apply (validatePixCode_iff (lit "00021F07") (lit "FFFF")).
  - reflexivity.
  - vm_compute. discriminate.
Defined.

(** * Further properties of the composition *)

Lemma len2_table :
  forallb (fun n => Nat.eqb (List.length (len2 n)) 2
                    && (numeral_value 10 (len2 n) =? n))
    (count_from 0 100) = true.
Proof. vm_compute. reflexivity. Qed.

Lemma len2_spec (n : Z) :
  0 <= n <= 99 ->
  List.length (len2 n) = 2%nat /\ numeral_value 10 (len2 n) = n.
Proof.
  intros H. pose proof len2_table as T. rewrite forallb_forall in T.
  specialize (T n (count_from_In 100 0 n ltac:(lia))).
  rewrite andb_true_iff, Nat.eqb_eq, Z.eqb_eq in T. exact T.
Qed.

(** X6. An amount of at most 99 units appears unchanged after tag 54 and
    a length field of exactly two decimal digits whose value is the number
    of units of the amount. *)
Theorem amount_field_well_formed (PIX_KEY : option jsstring)
  (random : list Byte.byte) (amount : amount_arg) (description : jsstring) :
  length (amount_toString amount) <= 99 ->
  exists tail,
    generatePixCode PIX_KEY random amount description =
    join (firstn 15 (payload_parts PIX_KEY random (amount_toString amount)))
    ++ lit "54" ++ len2 (length (amount_toString amount))
    ++ amount_toString amount ++ tail /\
    List.length (len2 (length (amount_toString amount))) = 2%nat /\
    numeral_value 10 (len2 (length (amount_toString amount)))
    = length (amount_toString amount).
Proof.
  intros H.
  assert (H0 : 0 <= length (amount_toString amount)) by (unfold length; lia).
  eexists. split; [|apply len2_spec; lia].
  unfold generatePixCode. cbv zeta.
  rewrite payload_amount, <- !app_assoc. reflexivity.
Qed.

Lemma amount_field_well_formed_witness :
  exists tail,
    generatePixCode None zero_bytes (AmountString (lit "10.00")) [] =
    join (firstn 15 (payload_parts None zero_bytes (lit "10.00")))
    ++ lit "54" ++ len2 (length (lit "10.00")) ++ lit "10.00" ++ tail /\
    List.length (len2 (length (lit "10.00"))) = 2%nat /\
    numeral_value 10 (len2 (length (lit "10.00"))) = length (lit "10.00").
Proof.
  apply (amount_field_well_formed None zero_bytes
           (AmountString (lit "10.00")) []).
  vm_compute. discriminate.
Defined.

Lemma forallb_firstn {A} (P : A -> bool) (n : nat) (l : list A) :
  forallb P l = true -> forallb P (firstn n l) = true.
Proof.
  revert l; induction n as [|n IH]; intros [|x l]; cbn; try reflexivity.
  rewrite !andb_true_iff. intros [Hx Hl]. auto.
Qed.

Lemma forallb_skipn {A} (P : A -> bool) (n : nat) (l : list A) :
  forallb P l = true -> forallb P (skipn n l) = true.
Proof.
  revert l; induction n as [|n IH]; intros [|x l]; cbn; try tauto.
  rewrite andb_true_iff. intros [Hx Hl]. auto.
Qed.

Lemma forallb_substring (P : Z -> bool) (s : jsstring) (a b : Z) :
  forallb P s = true -> forallb P (substring s a b) = true.
Proof.
  intros H. unfold substring. now apply forallb_firstn, forallb_skipn.
Qed.

Lemma hex_of_byte_lower (b : Byte.byte) :
  forallb is_lower_hex (hex_of_byte b) = true.
Proof. destruct b; vm_compute; reflexivity. Qed.

Lemma hex_of_bytes_lower (bs : list Byte.byte) :
  forallb is_lower_hex (hex_of_bytes bs) = true.
Proof.
  induction bs as [|b bs IH]; [reflexivity|].
  unfold hex_of_bytes. cbn [flat_map]. fold (hex_of_bytes bs).
  now rewrite forallb_app, hex_of_byte_lower, IH.
Qed.

Lemma hex_of_bytes_length (bs : list Byte.byte) :
  List.length (hex_of_bytes bs) = (2 * List.length bs)%nat.
Proof.
  induction bs as [|b bs IH]; [reflexivity|].
  unfold hex_of_bytes. cbn [flat_map]. fold (hex_of_bytes bs).
  rewrite List.length_app, IH. cbn [List.length hex_of_byte]. lia.
Qed.

Lemma txId_lower (random : list Byte.byte) :
  forallb is_lower_hex (txId random) = true.
Proof. apply forallb_substring, hex_of_bytes_lower. Qed.

Lemma txId_length (random : list Byte.byte) :
  List.length random = 16%nat -> length (txId random) = 25.
Proof.
  intros H. unfold txId, substring, clamp, length.
  rewrite hex_of_bytes_length, H.
  change (Z.to_nat _) with 25%nat at 1.
  change (Z.to_nat _) with 0%nat.
  rewrite skipn_O, length_firstn, hex_of_bytes_length, H. reflexivity.
Qed.

Lemma payload_additional_data (PIX_KEY : option jsstring)
  (random : list Byte.byte) (amountStr : jsstring) :
  join (payload_parts PIX_KEY random amountStr) =
  join (firstn 27 (payload_parts PIX_KEY random amountStr))
  ++ lit "62" ++ len2 (length (txId random) + 4)
  ++ lit "05" ++ len2 (length (txId random)) ++ txId random ++ lit "6304".
Proof.
  unfold join, payload_parts. cbn [firstn List.concat].
  rewrite <- !app_assoc. reflexivity.
Qed.

(** X7. With the sixteen bytes [randomBytes(16)] yields, the transaction
    reference has exactly 25 units, all lowercase hexadecimal digits, and
    the payload ends, before the checksum, with the additional-data
    template "6229" "0525" reference "6304": its declared length 29 is the
    length of its encoded sub-field. *)
Theorem transaction_reference (PIX_KEY : option jsstring)
  (random : list Byte.byte) (amount : amount_arg) (description : jsstring) :
  List.length random = 16%nat ->
  length (txId random) = 25 /\
  forallb is_lower_hex (txId random) = true /\
  length (lit "0525" ++ txId random) = 29 /\
  exists head,
    generatePixCode PIX_KEY random amount description =
    (head ++ lit "6229" ++ lit "0525" ++ txId random ++ lit "6304")
    ++ hex4 (calculateCRC16
               (head ++ lit "6229" ++ lit "0525" ++ txId random
                ++ lit "6304")).
Proof.
  intros H. pose proof (txId_length random H) as L.
  split; [exact L|]. split; [apply txId_lower|]. split.
  - rewrite length_app, L. reflexivity.
  - eexists. unfold generatePixCode. cbv zeta.
    rewrite payload_additional_data, L.
    change (len2 (25 + 4)) with (lit "29").
    change (len2 25) with (lit "25").
    assert (E : forall t, lit "62" ++ lit "29" ++ lit "05" ++ lit "25" ++ t
                          = lit "6229" ++ lit "0525" ++ t) by reflexivity.
    rewrite E. reflexivity.
Qed.

Lemma transaction_reference_witness :
  length (txId zero_bytes) = 25 /\
  forallb is_lower_hex (txId zero_bytes) = true /\
  length (lit "0525" ++ txId zero_bytes) = 29 /\
  exists head,
    generatePixCode None zero_bytes (AmountString (lit "10.00")) [] =
    (head ++ lit "6229" ++ lit "0525" ++ txId zero_bytes ++ lit "6304")
    ++ hex4 (calculateCRC16
               (head ++ lit "6229" ++ lit "0525" ++ txId zero_bytes
                ++ lit "6304")).
Proof.
  apply (transaction_reference None zero_bytes (AmountString (lit "10.00")) []).
  reflexivity.
Defined.

Lemma digits_forallb (P : Z -> bool) (fuel : nat) (radix n : Z)
  (acc : jsstring) :
  0 < radix ->
  (forall d, 0 <= d < radix -> P (digit d) = true) ->
  forallb P acc = true ->
  forallb P (digits fuel radix n acc) = true.
Proof.
  intros Hr Hd. revert n acc; induction fuel as [|fuel IH]; intros n acc Hacc;
    [exact Hacc|].
  cbn [digits].
  assert (H1 : forallb P (digit (n mod radix) :: acc) = true).
  { cbn [forallb]. rewrite Hacc, Hd; [reflexivity|].
    apply Z.mod_pos_bound, Hr. }
  destruct (n / radix =? 0); [exact H1 | now apply IH].
Qed.

Lemma forallb_repeat {A} (P : A -> bool) (x : A) (n : nat) :
  P x = true -> forallb P (repeat x n) = true.
Proof. intros H. induction n as [|n IH]; cbn; [reflexivity | now rewrite H]. Qed.

Lemma decimal_digit_printable (d : Z) :
  0 <= d < 10 -> printable (digit d) = true.
Proof.
  intros H. unfold printable, digit.
  destruct (Z.ltb_spec d 10); [|lia].
  apply andb_true_intro. split; apply Z.leb_le; lia.
Qed.

Lemma len2_printable (n : Z) : forallb printable (len2 n) = true.
Proof.
  unfold len2, padStart. rewrite forallb_app, forallb_repeat by reflexivity.
  unfold String_, toString.
  rewrite digits_forallb; auto using decimal_digit_printable. lia.
Qed.

Lemma lower_hex_printable (c : Z) : is_lower_hex c = true -> printable c = true.
Proof.
  unfold is_lower_hex, printable.
  rewrite orb_true_iff, !andb_true_iff, !Z.leb_le. lia.
Qed.

Lemma upper_hex_printable (c : Z) : is_upper_hex c = true -> printable c = true.
Proof.
  unfold is_upper_hex, printable.
  rewrite orb_true_iff, !andb_true_iff, !Z.leb_le. lia.
Qed.

Lemma forallb_impl {A} (P Q : A -> bool) (l : list A) :
  (forall x, P x = true -> Q x = true) ->
  forallb P l = true -> forallb Q l = true.
Proof.
  intros H. rewrite !forallb_forall. auto.
Qed.

Lemma txId_printable (random : list Byte.byte) :
  forallb printable (txId random) = true.
Proof.
  apply (forallb_impl is_lower_hex); [apply lower_hex_printable|].
  apply txId_lower.
Qed.

Lemma hex4_printable (data : jsstring) :
  forallb printable (hex4 (calculateCRC16 data)) = true.
Proof.
  apply (forallb_impl is_upper_hex); [apply upper_hex_printable|].
  apply hex4_spec, calculateCRC16_range.
Qed.

(** X8. When the PIX key in use and the amount consist of printable
    ASCII, so does the whole payment code, whatever the random bytes: the
    fixed texts, the length fields, the transaction reference and the
    checksum never bring in another unit. *)
Theorem generatePixCode_printable (PIX_KEY : option jsstring)
  (random : list Byte.byte) (amount : amount_arg) (description : jsstring) :
  forallb printable (pixKey PIX_KEY) = true ->
  forallb printable (amount_toString amount) = true ->
  forallb printable (generatePixCode PIX_KEY random amount description)
  = true.
Proof.
  intros Hk Ha. unfold generatePixCode. cbv zeta.
  rewrite forallb_app, hex4_printable, andb_true_r.
  unfold join, payload_parts. cbn [List.concat].
  rewrite !forallb_app.
  repeat (apply andb_true_intro; split);
    first [ assumption
          | apply len2_printable
          | apply txId_printable
          | reflexivity ].
Qed.

Lemma generatePixCode_printable_witness :
  forallb printable
    (generatePixCode None zero_bytes (AmountString (lit "10.00")) []) = true.
Proof.
  apply (generatePixCode_printable None zero_bytes
           (AmountString (lit "10.00")) []).
  - vm_compute. reflexivity.
  - vm_compute. reflexivity.
Defined.

Lemma app_same_length_inv {A} (a b x y : list A) :
  List.length a = List.length b -> a ++ x = b ++ y -> a = b.
Proof.
  revert b; induction a as [|u a IH]; intros [|v b] Hl E;
    try discriminate Hl; [reflexivity|].
  cbn [app] in E. injection E as -> E. f_equal.
  apply IH; [now injection Hl | exact E].
Qed.

Lemma payload_before_reference (PIX_KEY : option jsstring)
  (amountStr : jsstring) (random : list Byte.byte) :
  join (payload_parts PIX_KEY random amountStr) =
  join (firstn 27 (payload_parts PIX_KEY [] amountStr))
  ++ lit "62" ++ len2 (length (txId random) + 4)
  ++ lit "05" ++ len2 (length (txId random)) ++ txId random ++ lit "6304".
Proof.
  unfold join, payload_parts. cbn [firstn List.concat].
  rewrite <- !app_assoc. reflexivity.
Qed.

(** X9. Two calls with the same key and amount whose sixteen random
    bytes give different transaction references return different payment
    codes. *)
Theorem distinct_references_distinct_codes (PIX_KEY : option jsstring)
  (random random' : list Byte.byte) (amount : amount_arg)
  (description description' : jsstring) :
  List.length random = 16%nat ->
  List.length random' = 16%nat ->
  txId random <> txId random' ->
  generatePixCode PIX_KEY random amount description
  <> generatePixCode PIX_KEY random' amount description'.
Proof.
  intros H H' Hne E. apply Hne. clear Hne.
  pose proof (txId_length random H) as L.
  pose proof (txId_length random' H') as L'.
  revert E. unfold generatePixCode. cbv zeta.
  rewrite !payload_before_reference, L, L'.
  rewrite <- !app_assoc. intros E.
  do 5 apply app_inv_head in E.
  apply app_same_length_inv in E; [exact E|].
  unfold length in L, L'. lia.
Qed.

Lemma distinct_references_distinct_codes_witness :
  generatePixCode None zero_bytes (AmountString (lit "10.00")) []
  <> generatePixCode None ff_bytes (AmountString (lit "10.00")) [].
Proof.
  apply (distinct_references_distinct_codes None zero_bytes ff_bytes
           (AmountString (lit "10.00")) [] []).
  - reflexivity.
  - reflexivity.
  - vm_compute. discriminate.
Defined.

(** * Further properties of the cache *)

Lemma Map_get_set_same (m : Map) (k v : jsstring) :
  Map_get (Map_set m k v) k = Some v.
Proof.
  induction m as [|[k' v'] m IH]; cbn [Map_set Map_get].
  - now rewrite eqb_refl.
  - destruct (eqb k' k) eqn:E; cbn [Map_get]; rewrite E; auto.
Qed.

Lemma Map_get_set_other (m : Map) (k k' v : jsstring) :
  k' <> k -> Map_get (Map_set m k v) k' = Map_get m k'.
Proof.
  intros Hne. induction m as [|[k0 v0] m IH]; cbn [Map_set Map_get].
  - destruct (eqb k k') eqn:E; [apply eqb_eq in E; congruence | reflexivity].
  - destruct (eqb k0 k) eqn:E; cbn [Map_get].
    + apply eqb_eq in E. subst k0.
      destruct (eqb k k') eqn:E'; [apply eqb_eq in E'; congruence|reflexivity].
    + now rewrite IH.
Qed.

Lemma Map_get_delete_other (m : Map) (k k' : jsstring) :
  k' <> k -> Map_get (Map_delete m k) k' = Map_get m k'.
Proof.
  intros Hne. induction m as [|[k0 v0] m IH]; cbn [Map_delete Map_get];
    [reflexivity|].
  destruct (eqb k0 k) eqn:E; cbn [Map_get].
  - apply eqb_eq in E. subst k0.
    destruct (eqb k k') eqn:E'; [apply eqb_eq in E'; congruence|reflexivity].
  - now rewrite IH.
Qed.

Lemma NoDup_snoc {A} (l : list A) (x : A) :
  NoDup l -> ~ In x l -> NoDup (l ++ [x]).
Proof.
  intros Hl Hx. apply NoDup_app; [exact Hl | repeat constructor; auto |].
  intros y Hy [<-|[]]. contradiction.
Qed.

Lemma NoDup_tl {A} (l : list A) : NoDup l -> NoDup (tl l).
Proof. intros H. destruct l; [exact H | now inversion H]. Qed.

Lemma In_tl {A} (x : A) (l : list A) : In x (tl l) -> In x l.
Proof. destruct l; [tauto | now right]. Qed.

Section CacheInvariants.

Variable World : Type.
Variable toDataURL : World -> jsstring -> completion jsstring * World.

(** The cache after a call is the old one, or the old one with the new
    entry appended after the oldest entry was dropped from a full cache. *)
Lemma call_cache (st : state World) (k : jsstring) :
  qrCodeCache (snd (generatePixQRCode toDataURL st k)) = qrCodeCache st \/
  ~ In k (Map_keys (qrCodeCache st)) /\
  exists url,
    qrCodeCache (snd (generatePixQRCode toDataURL st k)) =
    (if 100 <=? Map_size (qrCodeCache st)
     then tl (qrCodeCache st) else qrCodeCache st) ++ [(k, url)].
Proof.
  unfold generatePixQRCode.
  destruct (Map_has (qrCodeCache st) k) eqn:Hm; [now left|].
  apply Map_has_not_In in Hm.
  destruct (toDataURL (world st) k) as [[url|e] w]; [|now left].
  right. split; [exact Hm|]. exists url. cbn [snd qrCodeCache].
  destruct (100 <=? Map_size (qrCodeCache st)) eqn:Hs.
  - destruct (qrCodeCache st) as [|[k0 v0] m] eqn:E; [discriminate Hs|].
    cbn [Map_first_key Map_keys map fst hd_error Map_delete tl].
    rewrite eqb_refl. apply Map_set_fresh, Map_has_not_In.
    intros Hin. apply Hm. now right.
  - now apply Map_set_fresh, Map_has_not_In.
Qed.

Lemma call_invariant (st : state World) (k : jsstring) :
  Map_size (qrCodeCache st) <= 100 ->
  NoDup (Map_keys (qrCodeCache st)) ->
  Map_size (qrCodeCache (snd (generatePixQRCode toDataURL st k))) <= 100 /\
  NoDup (Map_keys (qrCodeCache (snd (generatePixQRCode toDataURL st k)))).
Proof.
  intros Hs Hnd.
  destruct (call_cache st k) as [->|(Hk & url & ->)]; [now split|].
  rewrite Map_keys_app. cbn [Map_keys map fst].
  fold (Map_keys (if 100 <=? Map_size (qrCodeCache st)
                  then tl (qrCodeCache st) else qrCodeCache st)).
  unfold Map_size in *. rewrite List.length_app. cbn [List.length].
  destruct (Z.leb_spec 100 (Z.of_nat (List.length (qrCodeCache st)))) as [H|H].
  - split.
    + destruct (qrCodeCache st); cbn [tl List.length] in *; lia.
    + apply NoDup_snoc.
      * rewrite Map_keys_tl. now apply NoDup_tl.
      * rewrite Map_keys_tl. intros Hin. apply Hk. now apply In_tl.
  - split; [lia | now apply NoDup_snoc].
Qed.

(** X10. Whatever the requests and whatever the renderer does, a cache
    that starts empty never holds more than 100 entries and never holds two
    entries for the same payment code. *)
Theorem cache_bounded (w0 : World) (pixCodes : list jsstring) :
  Map_size (qrCodeCache (run toDataURL (mkState [] w0 []) pixCodes)) <= 100 /\
  NoDup (Map_keys (qrCodeCache (run toDataURL (mkState [] w0 []) pixCodes))).
Proof.
  assert (G : forall ks st,
             Map_size (qrCodeCache st) <= 100 ->
             NoDup (Map_keys (qrCodeCache st)) ->
             Map_size (qrCodeCache (run toDataURL st ks)) <= 100 /\
             NoDup (Map_keys (qrCodeCache (run toDataURL st ks)))).
  { induction ks as [|k ks IH]; intros st Hs Hnd; [now split|].
    unfold run. rewrite fold_left_cons.
    destruct (call_invariant st k Hs Hnd). now apply IH. }
  apply G; cbn; [lia | constructor].
Qed.

(** X11. Once a call for a payment code has returned an image, the image
    is cached under that code, and the next call for the same code returns
    the same image without calling the renderer and without changing the
    cache. *)
Theorem cached_after_render (st st1 : state World) (k url : jsstring) :
  generatePixQRCode toDataURL st k = (Returned url, st1) ->
  Map_get (qrCodeCache st1) k = Some url /\
  generatePixQRCode toDataURL st1 k = (Returned url, st1).
Proof.
  intros H.
  assert (G : Map_get (qrCodeCache st1) k = Some url).
  { revert H. unfold generatePixQRCode, Map_has.
    destruct (Map_get (qrCodeCache st) k) as [v|] eqn:Hg.
    - intros [= <- <-]. exact Hg.
    - destruct (toDataURL (world st) k) as [[u|e] w]; [|discriminate].
      intros [= <- <-]. cbn [qrCodeCache]. apply Map_get_set_same. }
  split; [exact G|].
  unfold generatePixQRCode, Map_has. now rewrite G.
Qed.

(** X12. A call for one payment code leaves the cached image of every
    other code as it was, except for the oldest entry of a full cache. *)
Theorem other_entries_kept (st : state World) (k k' : jsstring) :
  k' <> k ->
  Map_size (qrCodeCache st) < 100 \/
  Map_first_key (qrCodeCache st) <> Some k' ->
  Map_get (qrCodeCache (snd (generatePixQRCode toDataURL st k))) k'
  = Map_get (qrCodeCache st) k'.
Proof.
  intros Hne Hold. unfold generatePixQRCode.
  destruct (Map_has (qrCodeCache st) k); [reflexivity|].
  destruct (toDataURL (world st) k) as [[url|e] w]; [|reflexivity].
  cbn [snd qrCodeCache]. rewrite Map_get_set_other by exact Hne.
  destruct (Z.leb_spec 100 (Map_size (qrCodeCache st))) as [H|H];
    [|reflexivity].
  destruct Hold as [Hold|Hold]; [lia|].
  destruct (Map_first_key (qrCodeCache st)) as [fk|] eqn:E; [|reflexivity].
  apply Map_get_delete_other. congruence.
Qed.

End CacheInvariants.

Lemma cached_after_render_witness :
  Map_get (qrCodeCache (mkState [(lit "000201", lit "000201")] tt
                          [lit "000201"])) (lit "000201")
  = Some (lit "000201") /\
  generatePixQRCode echo_renderer
    (mkState [(lit "000201", lit "000201")] tt [lit "000201"]) (lit "000201")
  = (Returned (lit "000201"),
     mkState [(lit "000201", lit "000201")] tt [lit "000201"]).
Proof.
  apply (cached_after_render unit echo_renderer (mkState [] tt [])
           (mkState [(lit "000201", lit "000201")] tt [lit "000201"])
           (lit "000201") (lit "000201")).
  vm_compute. reflexivity.
Defined.

Lemma other_entries_kept_witness :
  Map_get
    (qrCodeCache
       (snd (generatePixQRCode echo_renderer
               (mkState [(lit "a", lit "A")] tt []) (lit "b")))) (lit "a")
  = Map_get (qrCodeCache (mkState [(lit "a", lit "A")] tt [])) (lit "a").
Proof.
  apply (other_entries_kept unit echo_renderer
           (mkState [(lit "a", lit "A")] tt []) (lit "b") (lit "a")).
  - vm_compute. discriminate.
  - left. vm_compute. reflexivity.
Defined.

(** * The route *)

Lemma generatePixCode_checksummed (PIX_KEY : option jsstring)
  (random : list Byte.byte) (amount : amount_arg) (description : jsstring) :
  validatePixCode (generatePixCode PIX_KEY random amount description)
  = Returned true.
Proof.
  unfold generatePixCode. cbv zeta.
  apply validatePixCode_checksummed, payload_long.
Qed.

Section RouteProperties.

Variable World : Type.
Variable toDataURL : World -> jsstring -> completion jsstring * World.
Variable PIX_KEY : option jsstring.

(** X13. A 200 answer of [POST /api/pix/qrcode] is given to an
    authenticated request with a truthy amount only; the payment code it
    carries is the one composed from that amount, [validatePixCode] accepts
    it, and the image it carries is the one the cache now holds for that
    code. *)
Theorem route_success (st st' : state World) (random : list Byte.byte)
  (req : pix_request) (qrCode pixCode : jsstring) :
  pix_qrcode_route toDataURL PIX_KEY st random req =
  (StatusJson 200 (QrCodeAndPixCode qrCode pixCode), st') ->
  isAuthenticated req = true /\
  (exists amount,
     body_amount req = Some amount /\ amount_truthy amount = true /\
     pixCode = generatePixCode PIX_KEY random amount
                 (or_default (body_description req) (lit ""))) /\
  validatePixCode pixCode = Returned true /\
  Map_get (qrCodeCache st') pixCode = Some qrCode.
Proof.
  unfold pix_qrcode_route.
  destruct (isAuthenticated req); cbn [negb]; [|discriminate].
  destruct (body_amount req) as [amount|]; [|discriminate].
  destruct (amount_truthy amount) eqn:Ht; cbn [negb]; [|discriminate].
  destruct (generatePixQRCode toDataURL st _) as [[url|e] st1] eqn:Hc;
    [|discriminate].
  intros [= <- <- <-].
  split; [reflexivity|]. split; [exists amount; auto|].
  split; [apply generatePixCode_checksummed|].
  revert Hc. unfold generatePixQRCode, Map_has.
  destruct (Map_get (qrCodeCache st) _) as [v|] eqn:Hg.
  - intros [= <- <-]. exact Hg.
  - destruct (toDataURL (world st) _) as [[u|e] w]; [|discriminate].
    intros [= <- <-]. cbn [qrCodeCache]. apply Map_get_set_same.
Qed.

(** X14. An answer of [POST /api/pix/qrcode] other than 200 leaves the
    cache as it was, and an answer that is neither 200 nor 500 (a 401 or a
    400) leaves the renderer uncalled as well. *)
Theorem route_failure_keeps_cache (st : state World)
  (random : list Byte.byte) (req : pix_request) :
  (forall body,
     fst (pix_qrcode_route toDataURL PIX_KEY st random req)
     <> StatusJson 200 body) ->
  qrCodeCache (snd (pix_qrcode_route toDataURL PIX_KEY st random req))
  = qrCodeCache st /\
  ((forall body,
      fst (pix_qrcode_route toDataURL PIX_KEY st random req)
      <> StatusJson 500 body) ->
   snd (pix_qrcode_route toDataURL PIX_KEY st random req) = st).
Proof.
  unfold pix_qrcode_route.
  destruct (isAuthenticated req); cbn [negb]; [|now split].
  destruct (body_amount req) as [amount|]; [|now split].
  destruct (amount_truthy amount); cbn [negb]; [|now split].
  set (code := generatePixCode PIX_KEY random amount _).
  unfold generatePixQRCode.
  destruct (Map_has (qrCodeCache st) code).
  - cbn [fst snd]. intros H. now split.
  - destruct (toDataURL (world st) code) as [[url|e] w]; cbn [fst snd].
    + intros H. exfalso. now apply (H (QrCodeAndPixCode url code)).
    + intros _. split; [reflexivity|].
      intros H. exfalso.
      now apply (H (Message (lit "Failed to generate PIX QR code"))).
Qed.

End RouteProperties.

Lemma route_success_witness :
  let req := mkRequest true (Some (AmountString (lit "10.00"))) None in
  let code := generatePixCode None zero_bytes (AmountString (lit "10.00"))
                (lit "") in
  isAuthenticated req = true /\
  (exists amount,
     body_amount req = Some amount /\ amount_truthy amount = true /\
     code = generatePixCode None zero_bytes amount
              (or_default (body_description req) (lit ""))) /\
  validatePixCode code = Returned true /\
  Map_get (qrCodeCache (mkState [(code, code)] tt [code])) code = Some code.
Proof.
  intros req code.
  apply (route_success unit echo_renderer None (mkState [] tt [])
           (mkState [(code, code)] tt [code]) zero_bytes req code code).
  vm_compute. reflexivity.
Defined.

Lemma route_failure_keeps_cache_witness :
  let req := mkRequest false (Some (AmountString (lit "10.00"))) None in
  let r := pix_qrcode_route echo_renderer None (mkState [] tt [])
             zero_bytes req in
  qrCodeCache (snd r) = [] /\
  ((forall body, fst r <> StatusJson 500 body) -> snd r = mkState [] tt []).
Proof.
  intros req r.
  apply (route_failure_keeps_cache unit echo_renderer None
           (mkState [] tt []) zero_bytes req).
  intros body. vm_compute. discriminate.
Defined.
